(** * cs144: sequence-number wrapping, stream reassembly, ARP network interface

    A shallow embedding of three translation units of the repository:
    - [wrapping_integers.cc]  (module [Wrap32]),
    - [reassembler.cc]        (module [Reassembler]),
    - [network_interface.cc]  (module [NetworkInterface]).

    Unsigned machine integers are integers in [Z] with the wrap-around of
    every operation written out ([u32], [u64]); [std::map]s are [gmap]s;
    [std::string]s are lists of characters. *)

From Stdlib Require Import ZArith Lia.
From stdpp Require Import base option list gmap strings.

Local Open Scope Z_scope.

(** ** Fixed-width unsigned arithmetic *)

Definition u32 (x : Z) : Z := x mod 2 ^ 32.
Definition u64 (x : Z) : Z := x mod 2 ^ 64.

Definition is_u32 (x : Z) : Prop := 0 <= x < 2 ^ 32.
Definition is_u64 (x : Z) : Prop := 0 <= x < 2 ^ 64.

(** ** wrapping_integers.cc *)

Module Wrap32.

(** The class holds one [uint32_t raw_value_]. *)
Record t : Type := Wrap32 { raw_value_ : Z }.

Definition wf (w : t) : Prop := is_u32 (raw_value_ w).

(** Modelled from the spec: [Wrap32::operator+( uint32_t )] is declared in
    wrapping_integers.hh, which is not among the sources; the spec describes
    it as 32-bit wrap-around addition on the raw value. *)
Definition add (w : t) (n : Z) : t := Wrap32 (u32 (raw_value_ w + n)).

(** [Wrap32::wrap( uint64_t n, Wrap32 zero_point )] *)
Definition wrap (n : Z) (zero_point : t) : t :=
  add zero_point (u32 (n mod u64 (Z.shiftl 1 32))).

(** The three locals of [Wrap32::unwrap]. [(uint32_t)( 1UL << 32 )] is
    [u32 (Z.shiftl 1 32)], that is 0; the sums are taken in [uint32_t]. *)
Definition unwrap_check (zero_point : t) (checkpoint : Z) : Z :=
  u32 (raw_value_ zero_point + u32 (checkpoint mod Z.shiftl 1 32)).

Definition unwrap_left (w zero_point : t) (checkpoint : Z) : Z :=
  u64 (u32 (unwrap_check zero_point checkpoint + u32 (Z.shiftl 1 32) - raw_value_ w))
    mod u64 (Z.shiftl 1 32).

Definition unwrap_right (w zero_point : t) (checkpoint : Z) : Z :=
  u64 (u32 (raw_value_ w + u32 (Z.shiftl 1 32) - unwrap_check zero_point checkpoint))
    mod u64 (Z.shiftl 1 32).

(** The condition of the conditional expression in the return statement. *)
Definition unwrap_guard (w zero_point : t) (checkpoint : Z) : bool :=
  (unwrap_left w zero_point checkpoint <? unwrap_right w zero_point checkpoint)
  && (unwrap_left w zero_point checkpoint <=? checkpoint).

(** [Wrap32::unwrap( Wrap32 zero_point, uint64_t checkpoint ) const]; both
    arms are [uint64_t] operations. *)
Definition unwrap (w zero_point : t) (checkpoint : Z) : Z :=
  if unwrap_guard w zero_point checkpoint
  then u64 (checkpoint - unwrap_left w zero_point checkpoint)
  else u64 (checkpoint + unwrap_right w zero_point checkpoint).

(** What the specification asks of the result [r] for index [n] and
    checkpoint [c]: a 64-bit value congruent to [n], at least as near to [c]
    as every other such value, and the smaller of two equally near ones. *)
Definition closest_prefer_smaller (n c r : Z) : Prop :=
  is_u64 r /\ r mod 2 ^ 32 = n mod 2 ^ 32 /\
  forall m, is_u64 m -> m mod 2 ^ 32 = n mod 2 ^ 32 ->
    Z.abs (r - c) <= Z.abs (m - c) /\ (Z.abs (m - c) = Z.abs (r - c) -> r <= m).

(** What the code delivers: among the non-negative values congruent to [n]
    the nearest one to [c], and the larger of two equally near ones. *)
Definition closest_prefer_larger (n c r : Z) : Prop :=
  is_u64 r /\ r mod 2 ^ 32 = n mod 2 ^ 32 /\
  forall m, 0 <= m -> m mod 2 ^ 32 = n mod 2 ^ 32 ->
    Z.abs (r - c) <= Z.abs (m - c) /\ (Z.abs (m - c) = Z.abs (r - c) -> m <= r).

End Wrap32.

(** ** Faults

    What the C++ program does where the language or its library gives no
    value: an exception leaving the function ([std::out_of_range] from
    [substr], [std::length_error] from [resize] or from the fill constructor)
    and undefined behaviour (dereferencing [end()], writing past the end of a
    string). *)

Inductive fault : Type :=
  | out_of_range
  | length_error
  | undefined_behaviour.

Inductive result (A : Type) : Type :=
  | Ok (a : A)
  | Fault (f : fault).
Arguments Ok {A} a.
Arguments Fault {A} f.

Global Instance result_ret : MRet result := fun A a => Ok a.
Global Instance result_bind : MBind result := fun A B f m =>
  match m with
  | Ok a => f a
  | Fault e => Fault e
  end.

(** ** std::string *)

Abbreviation bytes := (list Ascii.ascii).

Definition str (s : string) : bytes := String.list_ascii_of_string s.

Definition size (s : bytes) : Z := Z.of_nat (length s).

(** [std::string::max_size()] of the library the program is built with
    (libstdc++ on a 64-bit target). *)
Definition string_max_size : Z := 2 ^ 63 - 1.

(** [s.substr( pos )] *)
Definition substr (pos : Z) (s : bytes) : result bytes :=
  if size s <? pos then Fault out_of_range else Ok (drop (Z.to_nat pos) s).

(** [s.resize( n )]: cut, or filled up with the null character. *)
Definition string_resize (n : Z) (s : bytes) : result bytes :=
  if string_max_size <? n then Fault length_error
  else Ok (resize (Z.to_nat n) Ascii.zero s).

(** [std::string( n, 0 )] *)
Definition string_fill (n : Z) : result bytes :=
  if string_max_size <? n then Fault length_error
  else Ok (replicate (Z.to_nat n) Ascii.zero).

(** [std::ranges::copy( s, dst.begin() + off )] *)
Definition copy_at (s : bytes) (off : Z) (dst : bytes) : result bytes :=
  if (off <? 0) || (size dst <? off + size s) then Fault undefined_behaviour
  else Ok (take (Z.to_nat off) dst ++ s ++ drop (Z.to_nat (off + size s)) dst).

(** ** The output stream *)

Module Writer.

(** Modelled from the spec: the [Writer] side of the byte stream
    (byte_stream.hh, byte_stream.cc) is not among the sources.  The spec gives
    it three operations, [push(bytes)], [available_capacity()] and [close()];
    the state they need is the bytes written, the room left and the closed
    mark. *)
Record t : Type := Writer {
  pushed : bytes;      (* every byte written so far, in order *)
  available : Z;       (* uint64_t: room left *)
  closed : bool
}.

(** Modelled from the spec: [available_capacity()], the remaining bytes
    before the producer is blocked. *)
Definition available_capacity (w : t) : Z := available w.

(** Modelled from the spec: [push(bytes)] appends and must not exceed the
    remaining capacity; what does not fit is not written. *)
Definition push (data : bytes) (w : t) : t :=
  let n := Z.min (size data) (available w) in
  Writer (pushed w ++ take (Z.to_nat n) data) (available w - n) (closed w).

(** Modelled from the spec: [close()] marks that no more bytes will be
    written; closing twice is closing once. *)
Definition close (w : t) : t := Writer (pushed w) (available w) true.

(** A fresh stream of the given capacity. *)
Definition init (capacity : Z) : t := Writer [] capacity false.

End Writer.

(** ** reassembler.cc *)

Module Reassembler.

(** An element of [store_buffer_]: a tuple (first index, last index,
    payload), read with [get<0>], [get<1>], [get<2>]. *)
Definition node : Type := Z * Z * bytes.

Definition get0 (nd : node) : Z := nd.1.1.
Definition get1 (nd : node) : Z := nd.1.2.
Definition get2 (nd : node) : bytes := nd.2.

Record t : Type := Reassembler {
  next_stream_index_ : Z;       (* uint64_t *)
  store_buffer_ : list node;
  store_data_size_ : Z;         (* uint64_t *)
  had_last_ : bool
}.

(** Modelled from the spec: the member initialisers are in reassembler.hh,
    which is not among the sources; a new reassembler expects index 0,
    holds nothing and has not seen the end of the stream. *)
Definition init : t := Reassembler 0 [] 0 false.

(** The loop shared by [std::lower_bound] and [std::upper_bound] over the
    range of [len] elements that starts at position [first]: halve the
    range, look at the middle element, continue in the upper part when
    [go_right] holds of it and in the lower part otherwise. *)
Fixpoint bisect (go_right : node -> bool) (buf : list node)
    (fuel first len : nat) : nat :=
  match fuel with
  | O => first
  | S fuel' =>
      if decide (len = 0%nat) then first
      else
        let half := Nat.div2 len in
        let middle := (first + half)%nat in
        match buf !! middle with
        | Some nd =>
            if go_right nd
            then bisect go_right buf fuel' (S middle) (len - half - 1)
            else bisect go_right buf fuel' first half
        | None => first
        end
  end.

(** [std::lower_bound( first, last, v, comp )] with
    [comp( node, v ) = get<1>( node ) < v]. *)
Definition lower_bound (buf : list node) (first last : nat) (v : Z) : nat :=
  bisect (fun nd => get1 nd <? v) buf (last - first) first (last - first).

(** [std::upper_bound( first, last, v, comp )] with
    [comp( v, node ) = get<0>( node ) < v]. *)
Definition upper_bound (buf : list node) (first last : nat) (v : Z) : nat :=
  bisect (fun nd => negb (get0 nd <? v)) buf (last - first) first (last - first).

(** The range-for of [store_data] over the nodes from [left] up to
    [right]: each payload is taken off the counter and copied into
    [temp_s]. *)
Fixpoint absorb (nodes : list node) (data_left : Z) (sz : Z) (temp_s : bytes)
    : result (Z * bytes) :=
  match nodes with
  | [] => Ok (sz, temp_s)
  | nd :: rest =>
      let sz' := u64 (sz - size (get2 nd)) in
      temp_s' ← copy_at (get2 nd) (get0 nd - data_left) temp_s;
      absorb rest data_left sz' temp_s'
  end.

(** [Reassembler::store_data( std::string data, uint64_t begin, uint64_t end )].
    Iterators into [store_buffer_] are positions; [store_right] is [end()]. *)
Definition store_data (data : bytes) (begin end_ : Z) (r : t) : result t :=
  let buf := store_buffer_ r in
  let store_left := 0%nat in
  let store_right := length buf in
  let left := lower_bound buf store_left store_right begin in
  let right := upper_bound buf left store_right end_ in
  data_left ←
    (if decide (left ≠ store_right)
     then match buf !! left with
          | Some nd => Ok (Z.min begin (get0 nd))
          | None => Fault undefined_behaviour
          end
     else Ok begin);
  data_right ←
    (if decide (right ≠ left)
     then match buf !! right with
          | Some nd => Ok (Z.max end_ (get1 nd))
          | None => Fault undefined_behaviour
          end
     else Ok end_);
  if (size data =? u64 (data_right - data_left + 1)) && bool_decide (left = right)
  then
    Ok (Reassembler (next_stream_index_ r)
          (take left buf ++ (data_left, data_right, data) :: drop left buf)
          (store_data_size_ r) (had_last_ r))
  else
    temp_s ← string_fill (u64 (data_right - data_left + 1));
    '(sz, temp_s) ← absorb (take (right - left) (drop left buf)) data_left
                      (store_data_size_ r) temp_s;
    _ ← copy_at data (begin - data_left) temp_s;
    Ok (Reassembler (next_stream_index_ r)
          (take left buf ++ (data_left, data_right, data) :: drop right buf)
          sz (had_last_ r)).

(** [Reassembler::push_data_to_stream( std::string data, Writer& output )] *)
Definition push_data_to_stream (data : bytes) (r : t) (output : Writer.t)
    : t * Writer.t :=
  (Reassembler (u64 (next_stream_index_ r + size data)) (store_buffer_ r)
     (store_data_size_ r) (had_last_ r),
   Writer.push data output).

(** The while loop of [push_store_data_to_stream]; every turn pops the
    front node, so the recursion is on the buffer. *)
Fixpoint drain (buf : list node) (next sz : Z) (had_last : bool)
    (output : Writer.t) : t * Writer.t :=
  match buf with
  | nd :: rest =>
      if get0 nd =? next
      then
        let sz' := u64 (sz - size (get2 nd)) in
        let '(r', output') :=
          push_data_to_stream (get2 nd) (Reassembler next buf sz' had_last) output in
        drain rest (next_stream_index_ r') sz' had_last output'
      else (Reassembler next buf sz had_last, output)
  | [] => (Reassembler next buf sz had_last, output)
  end.

(** [Reassembler::push_store_data_to_stream( Writer& output )] *)
Definition push_store_data_to_stream (r : t) (output : Writer.t) : t * Writer.t :=
  let '(r', output') :=
    drain (store_buffer_ r) (next_stream_index_ r) (store_data_size_ r)
      (had_last_ r) output in
  if had_last_ r' && bool_decide (store_buffer_ r' = [])
  then (r', Writer.close output')
  else (r', output').

(** [Reassembler::insert( uint64_t first_index, string data,
    bool is_last_substring, Writer& output )].  The assignment
    [first_index = next_stream_index_] after the left trim is kept as
    [first_index']: nothing reads it afterwards, [data_left] keeps the
    value it was given at its declaration. *)
Definition insert (first_index : Z) (data : bytes) (is_last_substring : bool)
    (r : t) (output : Writer.t) : result (t * Writer.t) :=
  if bool_decide (data = [])
  then Ok (r, if is_last_substring then Writer.close output else output)
  else
    let data_left := first_index in
    let data_right := u64 (first_index + size data) in
    let enable_end_index :=
      u64 (next_stream_index_ r + Writer.available_capacity output) in
    if (data_right <? next_stream_index_ r) || (enable_end_index <=? first_index)
    then Ok (r, output)
    else
      '(data, first_index') ←
        (if data_left <? next_stream_index_ r
         then d ← substr (u64 (next_stream_index_ r - first_index)) data;
              Ok (d, next_stream_index_ r)
         else Ok (data, first_index));
      '(data_right, data, is_last_substring) ←
        (if enable_end_index <? data_right
         then d ← string_resize (u64 (enable_end_index - data_left)) data;
              Ok (enable_end_index, d, false)
         else Ok (data_right, data, is_last_substring));
      '(r, output) ←
        (if (data_left =? next_stream_index_ r)
            && match store_buffer_ r with
               | [] => true
               | front :: _ => data_right <? get1 front
               end
         then
           d ← match store_buffer_ r with
               | [] => Ok data
               | front :: _ =>
                   string_resize (u64 (Z.min data_right (get0 front) - data_left)) data
               end;
           Ok (push_data_to_stream d r output)
         else
           r' ← store_data data data_left (u64 (data_right - 1)) r;
           Ok (r', output));
      let r := Reassembler (next_stream_index_ r) (store_buffer_ r)
                 (store_data_size_ r) (had_last_ r || is_last_substring) in
      Ok (push_store_data_to_stream r output).

(** [Reassembler::bytes_pending() const] *)
Definition bytes_pending (r : t) : Z := store_data_size_ r.

(** The number of bytes the pending buffer holds: the payload lengths of
    its nodes, added up. *)
Definition buffered_bytes (r : t) : Z :=
  foldr (fun nd acc => size (get2 nd) + acc) 0 (store_buffer_ r).

(** The bytes held for the stream index [i] by a reassembler and the output
    it has written from index 0 on: the byte the output has at that
    position, and the byte of every pending node whose payload, laid out
    from the first index of the node (the index at which the drain loop
    pushes it), reaches [i]. *)
Definition bytes_at (r : t) (output : Writer.t) (i : Z) : bytes :=
  option_list (if 0 <=? i then Writer.pushed output !! Z.to_nat i else None)
  ++ omap (fun nd => if get0 nd <=? i
                     then get2 nd !! Z.to_nat (i - get0 nd)
                     else None)
       (store_buffer_ r).

(** The test of the drain loop: the pending buffer has a front node and it
    starts at the cursor. *)
Definition front_at_cursor (r : t) : bool :=
  match store_buffer_ r with
  | front :: _ => get0 front =? next_stream_index_ r
  | [] => false
  end.

End Reassembler.

(** ** network_interface.cc *)

Module NetworkInterface.

(** The five fields of an ARP message that the interface reads or writes;
    IP addresses are [uint32_t], the opcode is [uint16_t]. *)
Record ARPMessage (EthernetAddress : Type) : Type := Build_ARPMessage {
  opcode : Z;
  sender_ethernet_address : EthernetAddress;
  sender_ip_address : Z;
  target_ethernet_address : EthernetAddress;
  target_ip_address : Z
}.
Arguments Build_ARPMessage {EthernetAddress}.
Arguments opcode {EthernetAddress}.
Arguments sender_ethernet_address {EthernetAddress}.
Arguments sender_ip_address {EthernetAddress}.
Arguments target_ethernet_address {EthernetAddress}.
Arguments target_ip_address {EthernetAddress}.

(** The headers address.hh, ethernet_frame.hh, ethernet_header.hh,
    arp_message.hh and ipv4_datagram.hh are not among the sources.  What
    network_interface.cc uses of them is a parameter of the development:
    the types, the named constants, the value of a default-constructed
    [ARPMessage], and the [serialize] and [parse] functions. *)
Class Collaborators : Type := {
  EthernetAddress : Type;
  EthernetAddress_eq_dec :: EqDecision EthernetAddress;
  InternetDatagram : Type;
  Payload : Type;
  ETHERNET_BROADCAST : EthernetAddress;
  TYPE_IPv4 : Z;
  TYPE_ARP : Z;
  OPCODE_REQUEST : Z;
  OPCODE_REPLY : Z;
  ARPMessage_default : ARPMessage EthernetAddress;
  serialize_dgram : InternetDatagram -> Payload;
  serialize_arp : ARPMessage EthernetAddress -> Payload;
  parse_dgram : Payload -> option InternetDatagram;
  parse_arp : Payload -> option (ARPMessage EthernetAddress)
}.

(** [std::map::insert] and [std::map::emplace]: the pair goes in only when
    the key is not there yet; a present key keeps its value. *)
Definition map_insert {V : Type} (k : Z) (v : V) (m : gmap Z V) : gmap Z V :=
  match m !! k with
  | Some _ => m
  | None => <[k := v]> m
  end.

(** [std::map::operator[]]: the value at the key, put there
    value-initialised when the key is missing. *)
Definition map_subscript {V : Type} (dflt : V) (k : Z) (m : gmap Z V)
    : V * gmap Z V :=
  match m !! k with
  | Some v => (v, m)
  | None => (dflt, <[k := dflt]> m)
  end.

Definition IP_MAP_TTL : Z := 30000.
Definition ARP_REQUEST_TTL : Z := 5000.

Section WithCollaborators.
Context {C : Collaborators}.

Record EthernetHeader : Type := Build_EthernetHeader {
  dst : EthernetAddress;
  src : EthernetAddress;
  type : Z                       (* uint16_t *)
}.

Record EthernetFrame : Type := Build_EthernetFrame {
  header : EthernetHeader;
  payload : Payload
}.

(** An [Address] is kept as its [ipv4_numeric()]; [from_ipv4_numeric]
    followed by [ipv4_numeric] gives the number back. *)
Record t : Type := NetworkInterface {
  ethernet_address_ : EthernetAddress;
  ip_address_ : Z;
  ip2ether_ : gmap Z (EthernetAddress * Z);
  arp_timer_ : gmap Z Z;
  waited_dgrams_ : gmap Z (list InternetDatagram);
  out_frames_ : list EthernetFrame          (* std::queue, front first *)
}.

(** The constructor; the containers start empty. *)
Definition init (ethernet_address : EthernetAddress) (ip_address : Z) : t :=
  NetworkInterface ethernet_address ip_address ∅ ∅ ∅ [].

(** [out_frames_.push( frame )] *)
Definition push_frame (frame : EthernetFrame) (ni : t) : t :=
  NetworkInterface (ethernet_address_ ni) (ip_address_ ni) (ip2ether_ ni)
    (arp_timer_ ni) (waited_dgrams_ ni) (out_frames_ ni ++ [frame]).

(** The frame built in the first branch of [send_datagram]. *)
Definition ipv4_frame (ni : t) (to : EthernetAddress) (dgram : InternetDatagram)
    : EthernetFrame :=
  Build_EthernetFrame
    (Build_EthernetHeader to (ethernet_address_ ni) TYPE_IPv4)
    (serialize_dgram dgram).

(** The broadcast frame built in the second branch of [send_datagram]. *)
Definition arp_request_frame (ni : t) (target_ip : Z) : EthernetFrame :=
  let request_msg :=
    Build_ARPMessage OPCODE_REQUEST (ethernet_address_ ni) (ip_address_ ni)
      (target_ethernet_address ARPMessage_default) target_ip in
  Build_EthernetFrame
    (Build_EthernetHeader ETHERNET_BROADCAST (ethernet_address_ ni) TYPE_ARP)
    (serialize_arp request_msg).

(** [NetworkInterface::send_datagram( const InternetDatagram& dgram,
    const Address& next_hop )] *)
Definition send_datagram (dgram : InternetDatagram) (next_hop : Z) (ni : t) : t :=
  let target_ip := next_hop in
  match ip2ether_ ni !! target_ip with
  | Some entry => push_frame (ipv4_frame ni entry.1 dgram) ni
  | None =>
      match arp_timer_ ni !! target_ip with
      | None =>
          let ni1 := push_frame (arp_request_frame ni target_ip) ni in
          NetworkInterface (ethernet_address_ ni1) (ip_address_ ni1)
            (ip2ether_ ni1)
            (map_insert next_hop 0 (arp_timer_ ni1))
            (map_insert target_ip [dgram] (waited_dgrams_ ni1))
            (out_frames_ ni1)
      | Some _ =>
          let '(queued, waited) := map_subscript [] target_ip (waited_dgrams_ ni) in
          NetworkInterface (ethernet_address_ ni) (ip_address_ ni)
            (ip2ether_ ni) (arp_timer_ ni)
            (<[target_ip := queued ++ [dgram]]> waited)
            (out_frames_ ni)
      end
  end.

(** The reply built in the request branch of [recv_frame]. *)
Definition arp_reply_frame (ni : t) (msg : ARPMessage EthernetAddress)
    : EthernetFrame :=
  let reply_msg :=
    Build_ARPMessage OPCODE_REPLY (ethernet_address_ ni) (ip_address_ ni)
      (sender_ethernet_address msg) (sender_ip_address msg) in
  Build_EthernetFrame
    (Build_EthernetHeader (sender_ethernet_address msg) (ethernet_address_ ni)
       TYPE_ARP)
    (serialize_arp reply_msg).

(** [ip2ether_.insert( { msg.sender_ip_address,
    { msg.sender_ethernet_address, 0 } } )] *)
Definition learn (msg : ARPMessage EthernetAddress) (ni : t) : t :=
  NetworkInterface (ethernet_address_ ni) (ip_address_ ni)
    (map_insert (sender_ip_address msg) (sender_ethernet_address msg, 0)
       (ip2ether_ ni))
    (arp_timer_ ni) (waited_dgrams_ ni) (out_frames_ ni).

(** The reply branch of [recv_frame] after its [insert]: the queue of the
    sender is read through [operator[]], every datagram of it is handed
    to [send_datagram], then the queue is erased.  The loop runs over the
    vector as it is when the loop starts; [send_datagram] does not touch
    that vector while the sender is in [ip2ether_]
    (lemma [send_datagram_resolved_waited]). *)
Definition flush_waited (ip : Z) (ni : t) : t :=
  let '(dgrams, waited) := map_subscript [] ip (waited_dgrams_ ni) in
  let ni1 :=
    NetworkInterface (ethernet_address_ ni) (ip_address_ ni) (ip2ether_ ni)
      (arp_timer_ ni) waited (out_frames_ ni) in
  let ni2 := foldl (fun st dgram => send_datagram dgram ip st) ni1 dgrams in
  NetworkInterface (ethernet_address_ ni2) (ip_address_ ni2) (ip2ether_ ni2)
    (arp_timer_ ni2) (delete ip (waited_dgrams_ ni2)) (out_frames_ ni2).

(** [NetworkInterface::recv_frame( const EthernetFrame& frame )] *)
Definition recv_frame (frame : EthernetFrame) (ni : t)
    : option InternetDatagram * t :=
  if bool_decide (dst (header frame) ≠ ethernet_address_ ni)
     && bool_decide (dst (header frame) ≠ ETHERNET_BROADCAST)
  then (None, ni)
  else if type (header frame) =? TYPE_IPv4
  then
    match parse_dgram (payload frame) with
    | Some dgram => (Some dgram, ni)
    | None => (None, ni)
    end
  else if type (header frame) =? TYPE_ARP
  then
    match parse_arp (payload frame) with
    | Some msg =>
        let ni1 := learn msg ni in
        if opcode msg =? OPCODE_REQUEST
        then
          if target_ip_address msg =? ip_address_ ni1
          then (None, push_frame (arp_reply_frame ni1 msg) ni1)
          else (None, ni1)
        else if opcode msg =? OPCODE_REPLY
        then (None, flush_waited (sender_ip_address msg) (learn msg ni1))
        else (None, ni1)
    | None => (None, ni)
    end
  else (None, ni).

(** The first loop of [tick]: what becomes of one entry of [ip2ether_]. *)
Definition age_mapping (ms : Z) (entry : EthernetAddress * Z)
    : option (EthernetAddress * Z) :=
  let age := u64 (entry.2 + ms) in
  if IP_MAP_TTL <=? age then None else Some (entry.1, age).

(** The second loop of [tick]: what becomes of one entry of [arp_timer_]. *)
Definition age_request (ms : Z) (age0 : Z) : option Z :=
  let age := u64 (age0 + ms) in
  if ARP_REQUEST_TTL <=? age then None else Some age.

(** [NetworkInterface::tick( const size_t ms_since_last_tick )] *)
Definition tick (ms_since_last_tick : Z) (ni : t) : t :=
  NetworkInterface (ethernet_address_ ni) (ip_address_ ni)
    (omap (age_mapping ms_since_last_tick) (ip2ether_ ni))
    (omap (age_request ms_since_last_tick) (arp_timer_ ni))
    (waited_dgrams_ ni) (out_frames_ ni).

(** [NetworkInterface::maybe_send()] *)
Definition maybe_send (ni : t) : option EthernetFrame * t :=
  match out_frames_ ni with
  | [] => (None, ni)
  | frame :: rest =>
      (Some frame,
       NetworkInterface (ethernet_address_ ni) (ip_address_ ni) (ip2ether_ ni)
         (arp_timer_ ni) (waited_dgrams_ ni) rest)
  end.

(** A run of [tick] calls, one per interval of the list. *)
Definition ticks (intervals : list Z) (ni : t) : t :=
  foldl (fun st ms => tick ms st) ni intervals.

(** The sum of the intervals. *)
Definition elapsed (intervals : list Z) : Z := foldr Z.add 0 intervals.

(** A frame that passes the address check at the head of [recv_frame]. *)
Definition addressed_here (frame : EthernetFrame) (ni : t) : Prop :=
  dst (header frame) = ethernet_address_ ni
  \/ dst (header frame) = ETHERNET_BROADCAST.

(** What the specification says of an accepted ARP frame: afterwards the
    cache maps the sender's IP address to the sender's Ethernet address,
    at age 0. *)
Definition refreshes_sender (frame : EthernetFrame) (ni : t) : Prop :=
  forall msg,
    addressed_here frame ni ->
    type (header frame) = TYPE_ARP ->
    parse_arp (payload frame) = Some msg ->
    ip2ether_ (recv_frame frame ni).2 !! sender_ip_address msg
      = Some (sender_ethernet_address msg, 0).

(** [maybe_send] called up to [n] times, until it returns nothing: the
    frames it returned, in the order of the calls. *)
Fixpoint maybe_send_n (n : nat) (ni : t) : list EthernetFrame * t :=
  match n with
  | O => ([], ni)
  | S k =>
      match maybe_send ni with
      | (Some frame, ni') =>
          let '(frames, ni'') := maybe_send_n k ni' in (frame :: frames, ni'')
      | (None, ni') => ([], ni')
      end
  end.

(** Every age kept is below its time to live: cache entries are younger
    than [IP_MAP_TTL], request timers younger than [ARP_REQUEST_TTL]. *)
Definition timers_in_range (ni : t) : Prop :=
  (forall ip eth age, ip2ether_ ni !! ip = Some (eth, age) -> 0 <= age < IP_MAP_TTL) /\
  (forall ip age, arp_timer_ ni !! ip = Some age -> 0 <= age < ARP_REQUEST_TTL).

End WithCollaborators.

End NetworkInterface.

(** ** A concrete set of collaborators

    Ethernet addresses as 48-bit numbers, datagrams as strings, and a payload
    that is either a datagram or an ARP message, with the EtherType and ARP
    opcode numbers of the protocols.  The general statements below are run
    on it. *)

Module Fixture.
Import NetworkInterface.

Inductive wire : Type :=
  | wire_dgram (dgram : string)
  | wire_arp (msg : ARPMessage Z).

#[export] Instance collaborators : Collaborators := {|
  EthernetAddress := Z;
  InternetDatagram := string;
  Payload := wire;
  ETHERNET_BROADCAST := 0xffffffffffff;
  TYPE_IPv4 := 0x800;
  TYPE_ARP := 0x806;
  OPCODE_REQUEST := 1;
  OPCODE_REPLY := 2;
  ARPMessage_default := Build_ARPMessage 0 0 0 0 0;
  serialize_dgram := wire_dgram;
  serialize_arp := wire_arp;
  parse_dgram := fun w => match w with wire_dgram d => Some d | _ => None end;
  parse_arp := fun w => match w with wire_arp m => Some m | _ => None end
|}.

(** This host, and a peer on the same link. *)
Definition host_mac : Z := 0x020000000001.
Definition host_ip : Z := 0x0a000001.
Definition peer_mac : Z := 0x020000000002.
Definition peer_ip : Z := 0x0a000002.
Definition other_mac : Z := 0x020000000003.

Definition host : t := init host_mac host_ip.

(** An ARP message from the peer with the given opcode and hardware
    address, in a frame sent to the host. *)
Definition peer_arp (op : Z) (mac : Z) : EthernetFrame :=
  Build_EthernetFrame (Build_EthernetHeader host_mac mac TYPE_ARP)
    (wire_arp (Build_ARPMessage op mac peer_ip host_mac host_ip)).

(** The host with the peer in its cache since 100 ms. *)
Definition host_knowing_peer : t :=
  NetworkInterface host_mac host_ip {[ peer_ip := (peer_mac, 100) ]} ∅ ∅ [].

(** The peer as an interface of its own, and an IPv4 frame from it to the
    host. *)
Definition peer : t := init peer_mac peer_ip.

Definition hello_frame : EthernetFrame := ipv4_frame peer host_mac "hello".

End Fixture.


(** * Lemmas on fixed-width arithmetic *)

Lemma u32_range x : is_u32 (u32 x).
Proof. unfold is_u32, u32. apply Z.mod_pos_bound. lia. Qed.

Lemma u64_range x : is_u64 (u64 x).
Proof. unfold is_u64, u64. apply Z.mod_pos_bound. lia. Qed.

Lemma u32_small x : is_u32 x -> u32 x = x.
Proof. unfold is_u32, u32. intros. apply Z.mod_small. lia. Qed.

Lemma u64_small x : is_u64 x -> u64 x = x.
Proof. unfold is_u64, u64. intros. apply Z.mod_small. lia. Qed.

(** Two integers with the same residue differ by a multiple of the modulus. *)
Lemma same_residue_diff (a b k : Z) :
  0 < k -> a mod k = b mod k -> exists q, a = b + q * k.
Proof.
  intros Hk Hab. exists (a / k - b / k).
  pose proof (Z.div_mod a k ltac:(lia)).
  pose proof (Z.div_mod b k ltac:(lia)).
  nia.
Qed.

(** ** Properties of wrapping_integers.cc *)

Module Wrap32Facts.
Import Wrap32.

Lemma shift32 : Z.shiftl 1 32 = 2 ^ 32.
Proof. reflexivity. Qed.

Lemma u32_shift32 : u32 (Z.shiftl 1 32) = 0.
Proof. reflexivity. Qed.

Lemma u64_shift32 : u64 (Z.shiftl 1 32) = 2 ^ 32.
Proof. reflexivity. Qed.

Lemma unwrap_left_eq w zp c :
  unwrap_left w zp c = (unwrap_check zp c - raw_value_ w) mod 2 ^ 32.
Proof.
  unfold unwrap_left. rewrite u32_shift32, u64_shift32, Z.add_0_r.
  pose proof (u32_range (unwrap_check zp c - raw_value_ w)) as Hr.
  rewrite (u64_small (u32 _)) by (unfold is_u32, is_u64 in *; lia).
  unfold u32. apply Z.mod_mod. lia.
Qed.

Lemma unwrap_right_eq w zp c :
  unwrap_right w zp c = (raw_value_ w - unwrap_check zp c) mod 2 ^ 32.
Proof.
  unfold unwrap_right. rewrite u32_shift32, u64_shift32, Z.add_0_r.
  pose proof (u32_range (raw_value_ w - unwrap_check zp c)) as Hr.
  rewrite (u64_small (u32 _)) by (unfold is_u32, is_u64 in *; lia).
  unfold u32. apply Z.mod_mod. lia.
Qed.

Lemma unwrap_left_range w zp c : is_u32 (unwrap_left w zp c).
Proof. rewrite unwrap_left_eq. apply u32_range. Qed.

Lemma unwrap_right_range w zp c : is_u32 (unwrap_right w zp c).
Proof. rewrite unwrap_right_eq. apply u32_range. Qed.

(** The two distances are the two residues of opposite numbers: they are
    both zero or they add up to one lap. *)
Lemma left_right_lap w zp c :
  (unwrap_left w zp c = 0 /\ unwrap_right w zp c = 0) \/
  unwrap_left w zp c + unwrap_right w zp c = 2 ^ 32.
Proof.
  rewrite unwrap_left_eq, unwrap_right_eq.
  set (d := unwrap_check zp c - raw_value_ w).
  replace (raw_value_ w - unwrap_check zp c) with (- d) by (unfold d; lia).
  destruct (Z.eq_dec (d mod 2 ^ 32) 0) as [E|E].
  - left. split; [exact E|]. apply Z.mod_opp_l_z; [lia|exact E].
  - right. rewrite Z.mod_opp_l_nz by lia. lia.
Qed.

(** Relative to the zero point, the checkpoint plus [right] (equally, minus
    [left]) lands on the residue of the wrapped index. *)
Lemma right_residue n zp c :
  (c + unwrap_right (wrap n zp) zp c) mod 2 ^ 32 = n mod 2 ^ 32.
Proof.
  rewrite unwrap_right_eq. unfold unwrap_check, wrap, add. cbn [raw_value_].
  rewrite u64_shift32, shift32. unfold u32.
  change (2 ^ 32) with 4294967296.
  Z.to_euclidean_division_equations. lia.
Qed.

Lemma left_residue n zp c :
  (c - unwrap_left (wrap n zp) zp c) mod 2 ^ 32 = n mod 2 ^ 32.
Proof.
  rewrite <- (right_residue n zp c).
  destruct (left_right_lap (wrap n zp) zp c) as [[-> ->]|E].
  - f_equal; lia.
  - replace (c - unwrap_left (wrap n zp) zp c)
      with (c + unwrap_right (wrap n zp) zp c + (-1) * 2 ^ 32) by lia.
    apply Z_mod_plus_full.
Qed.

(** C10: [unwrap] returns a 64-bit value for every argument; when the guard
    of the return statement holds, [left] is at most the checkpoint and the
    [uint64_t] subtraction is the exact one (nothing wraps below zero);
    when it does not hold, the result is the [uint64_t] sum
    [checkpoint + right]. *)
Theorem unwrap_total_no_underflow (w zero_point : t) (checkpoint : Z) :
  is_u64 checkpoint ->
  is_u64 (unwrap w zero_point checkpoint) /\
  (unwrap_guard w zero_point checkpoint = true ->
     unwrap_left w zero_point checkpoint <= checkpoint /\
     0 <= checkpoint - unwrap_left w zero_point checkpoint /\
     unwrap w zero_point checkpoint
       = checkpoint - unwrap_left w zero_point checkpoint) /\
  (unwrap_guard w zero_point checkpoint = false ->
     unwrap w zero_point checkpoint
       = u64 (checkpoint + unwrap_right w zero_point checkpoint)).
Proof.
  intros Hc. split; [|split].
  - unfold unwrap. destruct (unwrap_guard _ _ _); apply u64_range.
  - intros Hg. unfold unwrap. rewrite Hg.
    unfold unwrap_guard in Hg. apply andb_prop in Hg as [_ Hle].
    apply Z.leb_le in Hle.
    pose proof (unwrap_left_range w zero_point checkpoint) as Hl.
    unfold is_u32, is_u64 in *.
    split; [lia|]. split; [lia|].
    apply u64_small. unfold is_u64. lia.
  - intros Hg. unfold unwrap. by rewrite Hg.
Qed.

Lemma unwrap_total_no_underflow_witness :
  is_u64 5 /\
  unwrap_guard (Wrap32 2) (Wrap32 0) 5 = true /\
  unwrap (Wrap32 2) (Wrap32 0) 5 = 5 - unwrap_left (Wrap32 2) (Wrap32 0) 5.
Proof.
  assert (Hc : is_u64 5) by (unfold is_u64; lia).
  split; [exact Hc|]. split; [reflexivity|].
  apply (unwrap_total_no_underflow (Wrap32 2) (Wrap32 0) 5 Hc).
  reflexivity.
Defined.

(** C1, as the code has it: for a checkpoint at least 2^31 below 2^64,
    [unwrap (wrap n z) z c] is the non-negative value congruent to [n]
    modulo 2^32 that is nearest to [c]; of two equally near values it is the
    larger one. *)
Theorem unwrap_wrap_closest (n : Z) (zero_point : t) (checkpoint : Z) :
  is_u64 n -> wf zero_point -> is_u64 checkpoint ->
  checkpoint + 2 ^ 31 < 2 ^ 64 ->
  closest_prefer_larger n checkpoint
    (unwrap (wrap n zero_point) zero_point checkpoint).
Proof.
  intros Hn Hz Hc Hroom.
  pose proof (unwrap_left_range (wrap n zero_point) zero_point checkpoint) as HL.
  pose proof (unwrap_right_range (wrap n zero_point) zero_point checkpoint) as HR.
  pose proof (left_right_lap (wrap n zero_point) zero_point checkpoint) as Hlap.
  pose proof (right_residue n zero_point checkpoint) as Hres.
  pose proof (left_residue n zero_point checkpoint) as Hles.
  unfold closest_prefer_larger, unwrap, unwrap_guard.
  set (L := unwrap_left (wrap n zero_point) zero_point checkpoint) in *.
  set (R := unwrap_right (wrap n zero_point) zero_point checkpoint) in *.
  unfold is_u32, is_u64 in *.
  destruct (Z.ltb_spec L R) as [Hlt|Hge]; cbn [andb];
    [destruct (Z.leb_spec L checkpoint) as [Hle|Hgt]|].
  - (* leftwards *)
    rewrite u64_small by (unfold is_u64; lia).
    split; [lia|]. split; [exact Hles|].
    intros m Hm Hmn.
    destruct (same_residue_diff m (checkpoint - L) (2 ^ 32)) as [q Hq];
      [lia|congruence|]. lia.
  - (* leftwards would be negative *)
    rewrite u64_small by (unfold is_u64; lia).
    split; [lia|]. split; [exact Hres|].
    intros m Hm Hmn.
    destruct (same_residue_diff m (checkpoint + R) (2 ^ 32)) as [q Hq];
      [lia|congruence|]. lia.
  - (* rightwards, ties included *)
    rewrite u64_small by (unfold is_u64; lia).
    split; [lia|]. split; [exact Hres|].
    intros m Hm Hmn.
    destruct (same_residue_diff m (checkpoint + R) (2 ^ 32)) as [q Hq];
      [lia|congruence|]. lia.
Qed.

Lemma unwrap_wrap_closest_witness :
  closest_prefer_larger (2 ^ 31) (2 ^ 32)
    (unwrap (wrap (2 ^ 31) (Wrap32 0)) (Wrap32 0) (2 ^ 32)).
Proof.
  apply (unwrap_wrap_closest (2 ^ 31) (Wrap32 0) (2 ^ 32));
    unfold is_u64, wf, is_u32; cbn [raw_value_]; lia.
Defined.

(** C1 as the specification words it fails on a tie: index 2^31 with zero
    point 0 and checkpoint 2^32 has the candidates 2^31 and 2^32 + 2^31 at
    the same distance, and the code returns the larger. *)
Lemma unwrap_tie_not_smaller :
  ~ closest_prefer_smaller (2 ^ 31) (2 ^ 32)
      (unwrap (wrap (2 ^ 31) (Wrap32 0)) (Wrap32 0) (2 ^ 32)).
Proof.
  intros (_ & _ & Hall).
  destruct (Hall (2 ^ 31)) as [_ Htie].
  - unfold is_u64. lia.
  - reflexivity.
  - change (unwrap (wrap (2 ^ 31) (Wrap32 0)) (Wrap32 0) (2 ^ 32))
      with (2 ^ 32 + 2 ^ 31) in Htie.
    lia.
Qed.

(** At the top of the 64-bit range the sum [checkpoint + right] wraps: the
    result is far from the checkpoint. *)
Remark unwrap_wraps_at_top :
  unwrap (wrap 0 (Wrap32 0)) (Wrap32 0) (2 ^ 64 - 1) = 0.
Proof. reflexivity. Qed.

End Wrap32Facts.

(** ** Properties of reassembler.cc *)

Module ReassemblerFacts.
Import Reassembler.

(** The binary search never needs more fuel than the length of its range,
    so [lower_bound] and [upper_bound], which start it with exactly that
    much, compute the result of the loop. *)
Lemma bisect_fuel go buf (fuel1 fuel2 first len : nat) :
  (len <= fuel1)%nat -> (len <= fuel2)%nat ->
  bisect go buf fuel1 first len = bisect go buf fuel2 first len.
Proof.
  revert fuel2 first len.
  induction fuel1 as [|fuel1 IH]; intros fuel2 first len H1 H2.
  - assert (len = 0%nat) as -> by lia. destruct fuel2; reflexivity.
  - destruct fuel2 as [|fuel2].
    + assert (len = 0%nat) as -> by lia. reflexivity.
    + cbn [bisect]. destruct (decide (len = 0%nat)) as [|Hne]; [reflexivity|].
      pose proof (Nat.div2_decr len (Nat.pred len) ltac:(lia)) as Hhalf.
      generalize dependent (Nat.div2 len). intros half Hhalf.
      destruct (buf !! (first + half)%nat) as [nd|]; [|reflexivity].
      destruct (go nd); apply IH; lia.
Qed.

(** The position found lies in the range searched. *)
Lemma bisect_bounds go buf (fuel first len : nat) :
  (first <= bisect go buf fuel first len <= first + len)%nat.
Proof.
  revert first len. induction fuel as [|fuel IH]; intros first len; cbn [bisect].
  - lia.
  - destruct (decide (len = 0%nat)) as [|Hne]; [lia|].
    pose proof (Nat.div2_decr len (Nat.pred len) ltac:(lia)) as Hhalf.
    generalize dependent (Nat.div2 len). intros half Hhalf.
    destruct (buf !! (first + half)%nat) as [nd|]; [|lia].
    destruct (go nd).
    + specialize (IH (S (first + half)) (len - half - 1)%nat). lia.
    + specialize (IH first half). lia.
Qed.

Lemma lower_bound_bounds buf (first last : nat) v :
  (first <= last)%nat ->
  (first <= lower_bound buf first last v <= last)%nat.
Proof.
  intros H. unfold lower_bound.
  pose proof (bisect_bounds (fun nd => get1 nd <? v) buf (last - first) first
                (last - first)). lia.
Qed.

Lemma upper_bound_bounds buf (first last : nat) v :
  (first <= last)%nat ->
  (first <= upper_bound buf first last v <= last)%nat.
Proof.
  intros H. unfold upper_bound.
  pose proof (bisect_bounds (fun nd => negb (get0 nd <? v)) buf (last - first)
                first (last - first)). lia.
Qed.

(** The guard at the head of [insert]: data that ends below the cursor, or
    starts at or past the end of the window, leaves everything as it is. *)
Lemma insert_outside_window first_index data is_last r output :
  data <> [] ->
  u64 (first_index + size data) < next_stream_index_ r
  \/ u64 (next_stream_index_ r + Writer.available_capacity output) <= first_index ->
  insert first_index data is_last r output = Ok (r, output).
Proof.
  intros Hne Hout. unfold insert.
  rewrite bool_decide_eq_false_2 by exact Hne.
  destruct Hout as [H|H].
  - apply Z.ltb_lt in H. by rewrite H.
  - apply Z.leb_le in H. rewrite H. by rewrite orb_true_r.
Qed.

(** C9: whatever the reassembler holds, [insert] with no bytes and
    [is_last_substring] set closes the output in that very call, pushes
    nothing, and leaves the reassembler (cursor, pending buffer, counter
    and flag) as it was. *)
Theorem insert_empty_last_closes (first_index : Z) (r : t) (output : Writer.t) :
  insert first_index [] true r output = Ok (r, Writer.close output) /\
  Writer.closed (Writer.close output) = true /\
  Writer.pushed (Writer.close output) = Writer.pushed output.
Proof. split; [reflexivity|]. split; reflexivity. Qed.

(** The same call on a reassembler that still holds the byte at index 1. *)
Example closes_while_pending :
  ('(r, w) ← insert 1 (str "b") false init (Writer.init 2);
   '(r', w') ← insert 0 [] true r w;
   Ok (store_buffer_ r', next_stream_index_ r', Writer.closed w'))
  = Ok ([(1, 1, str "b")], 0, true).
Proof. reflexivity. Qed.

(** C2 on the code: after "b" at index 1 has been stored in a new
    reassembler, the pending buffer holds one byte and [bytes_pending] is 0;
    [store_data] puts the node in and leaves [store_data_size_] alone. *)
Theorem bytes_pending_misses_stored_bytes :
  exists r w,
    insert 1 (str "b") false init (Writer.init 2) = Ok (r, w) /\
    store_buffer_ r = [(1, 1, str "b")] /\
    buffered_bytes r = 1 /\
    bytes_pending r = 0.
Proof. eexists _, _. repeat split. Qed.

(** C4 on the code: "ab" at index 0 is pushed, the cursor is 2; the same
    range again ends exactly at the cursor, passes the guard
    [data_right < next_stream_index_], and a node (0, 1, "") is put into
    the pending buffer. *)
Theorem insert_ending_at_cursor_is_stored :
  exists r1 w1 r2 w2,
    insert 0 (str "ab") false init (Writer.init 4) = Ok (r1, w1) /\
    next_stream_index_ r1 = 2 /\ store_buffer_ r1 = [] /\
    insert 0 (str "ab") false r1 w1 = Ok (r2, w2) /\
    store_buffer_ r2 = [(0, 1, [])] /\
    w2 = w1.
Proof. eexists _, _, _, _. repeat split. Qed.

(** Settles the comparisons of the goal that linear arithmetic decides. *)
Ltac settle_tests :=
  repeat match goal with
  | |- context [?a <? ?b] =>
      first [ rewrite (proj2 (Z.ltb_lt a b)) by lia
            | rewrite (proj2 (Z.ltb_ge a b)) by lia ]
  | |- context [?a <=? ?b] =>
      first [ rewrite (proj2 (Z.leb_le a b)) by lia
            | rewrite (proj2 (Z.leb_gt a b)) by lia ]
  | |- context [Z.min ?a ?b] =>
      first [ rewrite (Z.min_l a b) by lia | rewrite (Z.min_r a b) by lia ]
  end.

(** C3 on the code: with room for four bytes or more, "abc" at 0 is pushed;
    of "bcd" at 1 the byte "d" is kept, but under the first index 1 of the
    untrimmed range: the node (1, 3, "d") enters the pending buffer behind
    the cursor 3, the output stays "abc" and [bytes_pending] is 0. *)
Theorem overlap_abc_bcd (capacity : Z) :
  4 <= capacity < 2 ^ 64 ->
  ('(r, w) ← insert 0 (str "abc") false init (Writer.init capacity);
   insert 1 (str "bcd") false r w)
  = Ok (Reassembler 3 [(1, 3, str "d")] 0 false,
        Writer.Writer (str "abc") (capacity - 3) false).
Proof.
  intros Hcap.
  assert (H1 : insert 0 (str "abc") false init (Writer.init capacity)
               = Ok (Reassembler 3 [] 0 false,
                     Writer.Writer (str "abc") (capacity - 3) false)).
  { unfold insert, init, Writer.init, Writer.available_capacity.
    cbn [next_stream_index_ store_buffer_ store_data_size_ had_last_ Writer.available].
    change (bool_decide (str "abc" = [])) with false. cbv iota.
    change (u64 (0 + size (str "abc"))) with 3.
    rewrite (u64_small (0 + capacity)) by (unfold is_u64; lia).
    settle_tests. cbn [orb].
    unfold push_data_to_stream, Writer.push.
    cbn -[Z.min Z.sub size str u64].
    change (size (str "abc")) with 3. settle_tests. reflexivity. }
  rewrite H1. clear H1.
  change (Ok (Reassembler 3 [] 0 false,
              Writer.Writer (str "abc") (capacity - 3) false) ≫= _)
    with (insert 1 (str "bcd") false (Reassembler 3 [] 0 false)
            (Writer.Writer (str "abc") (capacity - 3) false)).
  unfold insert, Writer.available_capacity.
  cbn [next_stream_index_ store_buffer_ store_data_size_ had_last_ Writer.available].
  change (bool_decide (str "bcd" = [])) with false. cbv iota.
  change (u64 (1 + size (str "bcd"))) with 4.
  rewrite (u64_small (3 + (capacity - 3))) by (unfold is_u64; lia).
  settle_tests. cbn [orb].
  reflexivity.
Qed.

Lemma overlap_abc_bcd_witness :
  ('(r, w) ← insert 0 (str "abc") false init (Writer.init 4);
   insert 1 (str "bcd") false r w)
  = Ok (Reassembler 3 [(1, 3, str "d")] 0 false,
        Writer.Writer (str "abc") (4 - 3) false).
Proof. apply (overlap_abc_bcd 4). lia. Defined.

(** By position, after the two calls: index 1 is held twice, as the
    delivered "b" and as the pending "d", and index 3 is not held. *)
Remark positions_after_overlap :
  let r := Reassembler 3 [(1, 3, str "d")] 0 false in
  let w := Writer.Writer (str "abc") 1 false in
  bytes_at r w 0 = str "a" /\ bytes_at r w 1 = str "bd" /\
  bytes_at r w 2 = str "c" /\ bytes_at r w 3 = [].
Proof. repeat split. Qed.

(** After that, "d" sent again at the cursor is filed under index 1 as well;
    the output is still "abc". *)
Example resend_after_overlap_not_delivered :
  ('(r, w) ← insert 0 (str "abc") false init (Writer.init 8);
   '(r, w) ← insert 1 (str "bcd") false r w;
   '(r, w) ← insert 3 (str "d") false r w;
   Ok (store_buffer_ r, next_stream_index_ r, Writer.pushed w))
  = Ok ([(1, 3, str "d"); (1, 3, str "d")], 3, str "abc").
Proof. reflexivity. Qed.

End ReassemblerFacts.

(** ** Properties of network_interface.cc *)

Module NetworkInterfaceFacts.
Import NetworkInterface.

Section Maps.
Context {V : Type}.
Implicit Types (m : gmap Z V).

Lemma map_insert_absent k (v : V) m :
  m !! k = None -> map_insert k v m = <[k := v]> m.
Proof. intros H. unfold map_insert. by rewrite H. Qed.

Lemma map_insert_present k (v v0 : V) m :
  m !! k = Some v0 -> map_insert k v m = m.
Proof. intros H. unfold map_insert. by rewrite H. Qed.

Lemma lookup_map_insert k (v : V) m :
  map_insert k v m !! k = Some (default v (m !! k)).
Proof.
  unfold map_insert. destruct (m !! k) eqn:E; cbn [default].
  - exact E.
  - apply lookup_insert_eq.
Qed.

Lemma map_insert_idem k (v : V) m :
  map_insert k v (map_insert k v m) = map_insert k v m.
Proof.
  unfold map_insert at 1. by rewrite lookup_map_insert.
Qed.

Lemma delete_map_subscript (dflt : V) k m :
  delete k (map_subscript dflt k m).2 = delete k m.
Proof.
  unfold map_subscript. destruct (m !! k); cbn [snd]; [done|].
  apply delete_insert_eq.
Qed.
End Maps.

Section Facts.
Context {C : Collaborators}.
Implicit Types (ni : t) (frame : EthernetFrame).
Implicit Types (msg : ARPMessage EthernetAddress) (dgram : InternetDatagram).

(** *** send_datagram *)

Lemma send_datagram_resolved dgram ip ni entry :
  ip2ether_ ni !! ip = Some entry ->
  send_datagram dgram ip ni = push_frame (ipv4_frame ni entry.1 dgram) ni.
Proof. intros H. unfold send_datagram. by rewrite H. Qed.

Lemma send_datagram_resolved_waited dgram ip ni :
  is_Some (ip2ether_ ni !! ip) ->
  waited_dgrams_ (send_datagram dgram ip ni) = waited_dgrams_ ni.
Proof. intros [e He]. by rewrite (send_datagram_resolved _ _ _ e He). Qed.

Lemma send_datagram_first dgram ip ni :
  ip2ether_ ni !! ip = None -> arp_timer_ ni !! ip = None ->
  waited_dgrams_ ni !! ip = None ->
  send_datagram dgram ip ni
  = NetworkInterface (ethernet_address_ ni) (ip_address_ ni) (ip2ether_ ni)
      (<[ip := 0]> (arp_timer_ ni)) (<[ip := [dgram]]> (waited_dgrams_ ni))
      (out_frames_ ni ++ [arp_request_frame ni ip]).
Proof.
  intros H1 H2 H3. unfold send_datagram. rewrite H1, H2.
  cbn [push_frame ethernet_address_ ip_address_ ip2ether_ arp_timer_
       waited_dgrams_ out_frames_].
  by rewrite !map_insert_absent.
Qed.

Lemma send_datagram_pending dgram ip ni age queued :
  ip2ether_ ni !! ip = None -> arp_timer_ ni !! ip = Some age ->
  waited_dgrams_ ni !! ip = Some queued ->
  send_datagram dgram ip ni
  = NetworkInterface (ethernet_address_ ni) (ip_address_ ni) (ip2ether_ ni)
      (arp_timer_ ni) (<[ip := queued ++ [dgram]]> (waited_dgrams_ ni))
      (out_frames_ ni).
Proof.
  intros H1 H2 H3. unfold send_datagram, map_subscript. by rewrite H1, H2, H3.
Qed.

(** The loop of the reply branch: with the address known, every queued
    datagram becomes one IPv4 frame, in the order of the queue. *)
Lemma resend_all ip entry (dgrams : list InternetDatagram) ni :
  ip2ether_ ni !! ip = Some entry ->
  foldl (fun st dgram => send_datagram dgram ip st) ni dgrams
  = NetworkInterface (ethernet_address_ ni) (ip_address_ ni) (ip2ether_ ni)
      (arp_timer_ ni) (waited_dgrams_ ni)
      (out_frames_ ni ++ map (ipv4_frame ni entry.1) dgrams).
Proof.
  revert ni. induction dgrams as [|d ds IH]; intros ni H; cbn [foldl map].
  - rewrite app_nil_r. by destruct ni.
  - rewrite (send_datagram_resolved _ _ _ _ H).
    rewrite IH by exact H.
    unfold push_frame, ipv4_frame.
    cbn [ethernet_address_ ip_address_ ip2ether_ arp_timer_ waited_dgrams_
         out_frames_].
    by rewrite <- app_assoc.
Qed.

Lemma flush_waited_resolved ip entry ni :
  ip2ether_ ni !! ip = Some entry ->
  flush_waited ip ni
  = NetworkInterface (ethernet_address_ ni) (ip_address_ ni) (ip2ether_ ni)
      (arp_timer_ ni) (delete ip (waited_dgrams_ ni))
      (out_frames_ ni
         ++ map (ipv4_frame ni entry.1) (default [] (waited_dgrams_ ni !! ip))).
Proof.
  intros H. unfold flush_waited.
  pose proof (delete_map_subscript (V := list InternetDatagram) [] ip
                (waited_dgrams_ ni)) as Hdel.
  unfold map_subscript in *.
  destruct (waited_dgrams_ ni !! ip) as [q|] eqn:E; cbn [default snd] in *.
  - by rewrite (resend_all ip entry) by exact H.
  - rewrite (resend_all ip entry) by exact H.
    cbn [ethernet_address_ ip_address_ ip2ether_ arp_timer_ waited_dgrams_
         out_frames_ map].
    by rewrite Hdel.
Qed.

(** *** tick *)

Lemma ticks_cons ms (l : list Z) ni : ticks (ms :: l) ni = ticks l (tick ms ni).
Proof. reflexivity. Qed.

Lemma ticks_app (l1 l2 : list Z) ni : ticks (l1 ++ l2) ni = ticks l2 (ticks l1 ni).
Proof. apply foldl_app. Qed.

(** Time leaves the addresses, the waiting datagrams and the outbound
    queue alone. *)
Lemma ticks_frame (l : list Z) ni :
  ethernet_address_ (ticks l ni) = ethernet_address_ ni /\
  ip_address_ (ticks l ni) = ip_address_ ni /\
  waited_dgrams_ (ticks l ni) = waited_dgrams_ ni /\
  out_frames_ (ticks l ni) = out_frames_ ni.
Proof.
  revert ni. induction l as [|ms l IH]; intros ni; [done|].
  rewrite ticks_cons. destruct (IH (tick ms ni)) as (-> & -> & -> & ->). done.
Qed.

Lemma ticks_unknown (l : list Z) ni ip :
  ip2ether_ ni !! ip = None -> ip2ether_ (ticks l ni) !! ip = None.
Proof.
  revert ni. induction l as [|ms l IH]; intros ni H; [done|].
  rewrite ticks_cons. apply IH. cbn [tick ip2ether_].
  by rewrite lookup_omap, H.
Qed.

Lemma ticks_mapping_alive (l : list Z) ni ip eth age :
  ip2ether_ ni !! ip = Some (eth, age) ->
  0 <= age -> Forall (fun ms => 0 <= ms) l ->
  age + elapsed l < IP_MAP_TTL ->
  ip2ether_ (ticks l ni) !! ip = Some (eth, age + elapsed l).
Proof.
  revert ni age. induction l as [|ms l IH]; intros ni age H Hage Hl Hsum.
  - cbn [elapsed foldr ticks foldl]. by rewrite Z.add_0_r.
  - apply Forall_cons in Hl as [Hms Hl].
    change (elapsed (ms :: l)) with (ms + elapsed l) in *.
    assert (0 <= elapsed l).
    { clear -Hl. induction Hl; cbn [elapsed foldr]; [lia|].
      fold (elapsed l). lia. }
    unfold IP_MAP_TTL in *.
    rewrite ticks_cons, Z.add_assoc. apply IH; [|lia|done|lia].
    cbn [tick ip2ether_]. rewrite lookup_omap, H. cbn [mbind option_bind].
    unfold age_mapping, IP_MAP_TTL. cbn [fst snd].
    rewrite u64_small by (unfold is_u64; lia).
    destruct (Z.leb_spec 30000 (age + ms)); [lia|done].
Qed.

Lemma ticks_request_alive (l : list Z) ni ip age :
  arp_timer_ ni !! ip = Some age ->
  0 <= age -> Forall (fun ms => 0 <= ms) l ->
  age + elapsed l < ARP_REQUEST_TTL ->
  arp_timer_ (ticks l ni) !! ip = Some (age + elapsed l).
Proof.
  revert ni age. induction l as [|ms l IH]; intros ni age H Hage Hl Hsum.
  - cbn [elapsed foldr ticks foldl]. by rewrite Z.add_0_r.
  - apply Forall_cons in Hl as [Hms Hl].
    change (elapsed (ms :: l)) with (ms + elapsed l) in *.
    assert (0 <= elapsed l).
    { clear -Hl. induction Hl; cbn [elapsed foldr]; [lia|].
      fold (elapsed l). lia. }
    unfold ARP_REQUEST_TTL in *.
    rewrite ticks_cons, Z.add_assoc. apply IH; [|lia|done|lia].
    cbn [tick arp_timer_]. rewrite lookup_omap, H. cbn [mbind option_bind].
    unfold age_request, ARP_REQUEST_TTL.
    rewrite u64_small by (unfold is_u64; lia).
    destruct (Z.leb_spec 5000 (age + ms)); [lia|done].
Qed.

(** *** recv_frame *)

Lemma addressed_here_passes frame ni :
  addressed_here frame ni ->
  bool_decide (dst (header frame) ≠ ethernet_address_ ni)
  && bool_decide (dst (header frame) ≠ ETHERNET_BROADCAST) = false.
Proof.
  intros [H|H].
  - rewrite (bool_decide_eq_false_2 (dst (header frame) ≠ ethernet_address_ ni));
      [done|]. intros Hne. by apply Hne.
  - rewrite (bool_decide_eq_false_2 (dst (header frame) ≠ ETHERNET_BROADCAST));
      [apply andb_false_r|]. intros Hne. by apply Hne.
Qed.

(** An accepted ARP frame that parses: the state after [recv_frame], by
    opcode. *)
Lemma recv_frame_arp frame ni msg :
  TYPE_ARP ≠ TYPE_IPv4 ->
  addressed_here frame ni ->
  type (header frame) = TYPE_ARP ->
  parse_arp (payload frame) = Some msg ->
  recv_frame frame ni
  = (None,
     if opcode msg =? OPCODE_REQUEST
     then if target_ip_address msg =? ip_address_ ni
          then push_frame (arp_reply_frame ni msg) (learn msg ni)
          else learn msg ni
     else if opcode msg =? OPCODE_REPLY
          then flush_waited (sender_ip_address msg) (learn msg (learn msg ni))
          else learn msg ni).
Proof.
  intros Hty Hdst Harp Hparse. unfold recv_frame.
  rewrite (addressed_here_passes _ _ Hdst), Harp.
  rewrite (proj2 (Z.eqb_neq TYPE_ARP TYPE_IPv4)) by exact Hty.
  rewrite Z.eqb_refl, Hparse.
  destruct (opcode msg =? OPCODE_REQUEST); [|by destruct (opcode msg =? OPCODE_REPLY)].
  change (ip_address_ (learn msg ni)) with (ip_address_ ni).
  by destruct (target_ip_address msg =? ip_address_ ni).
Qed.

Lemma learn_twice msg ni : learn msg (learn msg ni) = learn msg ni.
Proof.
  unfold learn.
  cbn [ethernet_address_ ip_address_ ip2ether_ arp_timer_ waited_dgrams_
       out_frames_].
  by rewrite map_insert_idem.
Qed.

Lemma learn_lookup msg ni :
  ip2ether_ (learn msg ni) !! sender_ip_address msg
  = Some (default (sender_ethernet_address msg, 0)
            (ip2ether_ ni !! sender_ip_address msg)).
Proof. apply lookup_map_insert. Qed.

(** C8: a frame whose destination is neither the interface's own Ethernet
    address nor the broadcast address: [recv_frame] returns nothing and
    the interface (cache, request timers, waiting datagrams, outbound
    queue) is the one it was. *)
Theorem recv_frame_not_addressed frame ni :
  dst (header frame) ≠ ethernet_address_ ni ->
  dst (header frame) ≠ ETHERNET_BROADCAST ->
  recv_frame frame ni = (None, ni).
Proof.
  intros H1 H2. unfold recv_frame.
  by rewrite !bool_decide_eq_true_2.
Qed.

(** C5, as the code has it: after an accepted ARP frame that parses,
    request, reply or any other opcode, the cache has an entry for the
    sender's IP address: the sender's Ethernet address at age 0 when
    there was none, and the entry that was there, address and age
    unchanged, when there was one. *)
Theorem recv_frame_arp_learns_if_unknown frame ni msg :
  TYPE_ARP ≠ TYPE_IPv4 ->
  addressed_here frame ni ->
  type (header frame) = TYPE_ARP ->
  parse_arp (payload frame) = Some msg ->
  ip2ether_ (recv_frame frame ni).2 !! sender_ip_address msg
  = Some (default (sender_ethernet_address msg, 0)
            (ip2ether_ ni !! sender_ip_address msg)).
Proof.
  intros Hty Hdst Harp Hparse.
  rewrite (recv_frame_arp _ _ _ Hty Hdst Harp Hparse). cbn [snd].
  pose proof (learn_lookup msg ni) as Hl.
  destruct (opcode msg =? OPCODE_REQUEST).
  - by destruct (target_ip_address msg =? ip_address_ ni).
  - destruct (opcode msg =? OPCODE_REPLY); [|done].
    rewrite learn_twice.
    by rewrite (flush_waited_resolved _ _ _ Hl).
Qed.

(** X19: on an interface that has no cache entry, no request timer and no
    waiting datagrams for [ip], two [send_datagram] calls for [ip] less
    than 5000 ms of ticks apart add one frame to the outbound queue: the
    ARP request, broadcast from the interface's Ethernet address with type
    ARP, whose message has opcode request, the interface's two addresses as
    sender and [ip] as target.  An ARP reply from [ip] received after any
    further ticks adds two frames of type IPv4 from the interface to the
    Ethernet address of the reply, the first with the first datagram
    serialized as payload, the second with the second, and returns no
    datagram. *)
Theorem two_sends_one_request_then_in_order
    ni ip (d1 d2 : InternetDatagram) (between later : list Z) frame msg :
  TYPE_ARP ≠ TYPE_IPv4 ->
  OPCODE_REPLY ≠ OPCODE_REQUEST ->
  ip2ether_ ni !! ip = None ->
  arp_timer_ ni !! ip = None ->
  waited_dgrams_ ni !! ip = None ->
  Forall (fun ms => 0 <= ms) between ->
  elapsed between < 5000 ->
  addressed_here frame ni ->
  type (header frame) = TYPE_ARP ->
  parse_arp (payload frame) = Some msg ->
  opcode msg = OPCODE_REPLY ->
  sender_ip_address msg = ip ->
  let sent := send_datagram d2 ip (ticks between (send_datagram d1 ip ni)) in
  let answered := recv_frame frame (ticks later sent) in
  out_frames_ sent
  = out_frames_ ni
      ++ [Build_EthernetFrame
            (Build_EthernetHeader ETHERNET_BROADCAST (ethernet_address_ ni) TYPE_ARP)
            (serialize_arp
               (Build_ARPMessage OPCODE_REQUEST (ethernet_address_ ni) (ip_address_ ni)
                  (target_ethernet_address ARPMessage_default) ip))] /\
  answered.1 = None /\
  out_frames_ answered.2
  = out_frames_ sent
      ++ [Build_EthernetFrame
            (Build_EthernetHeader (sender_ethernet_address msg) (ethernet_address_ ni)
               TYPE_IPv4)
            (serialize_dgram d1);
          Build_EthernetFrame
            (Build_EthernetHeader (sender_ethernet_address msg) (ethernet_address_ ni)
               TYPE_IPv4)
            (serialize_dgram d2)].
Proof.
  intros Hty Hop Hcache Htimer Hwait Hpos Hsum Hdst Harp Hparse Hreply Hip.
  rewrite (send_datagram_first d1 ip ni Hcache Htimer Hwait).
  set (ni1 := NetworkInterface _ _ _ _ _ _).
  destruct (ticks_frame between ni1) as (Heth1 & Hipa1 & Hw1 & Ho1).
  assert (Hc1 : ip2ether_ (ticks between ni1) !! ip = None)
    by (apply ticks_unknown; exact Hcache).
  assert (Ht1 : arp_timer_ (ticks between ni1) !! ip = Some (0 + elapsed between)).
  { apply ticks_request_alive; [apply lookup_insert_eq|lia|done|].
    unfold ARP_REQUEST_TTL. lia. }
  assert (Hq1 : waited_dgrams_ (ticks between ni1) !! ip = Some [d1])
    by (rewrite Hw1; apply lookup_insert_eq).
  intros sent.
  assert (Hsent : sent = send_datagram d2 ip (ticks between ni1)) by reflexivity.
  clearbody sent.
  rewrite (send_datagram_pending d2 ip _ _ _ Hc1 Ht1 Hq1) in Hsent.
  assert (Hout : out_frames_ sent = out_frames_ ni ++ [arp_request_frame ni ip])
    by (rewrite Hsent; cbn [out_frames_]; exact Ho1).
  intros answered. subst answered. split; [exact Hout|].
  destruct (ticks_frame later sent) as (Heth2 & Hipa2 & Hw2 & Ho2).
  assert (Heth : ethernet_address_ sent = ethernet_address_ ni)
    by (rewrite Hsent; cbn [ethernet_address_]; exact Heth1).
  assert (Hdst' : addressed_here frame (ticks later sent)).
  { unfold addressed_here in *. by rewrite Heth2, Heth. }
  rewrite (recv_frame_arp _ _ _ Hty Hdst' Harp Hparse).
  rewrite Hreply, (proj2 (Z.eqb_neq _ _) Hop), Z.eqb_refl, learn_twice.
  cbn [fst snd]. split; [done|].
  assert (Hc2 : ip2ether_ (ticks later sent) !! sender_ip_address msg = None).
  { rewrite Hip. apply ticks_unknown. rewrite Hsent. cbn [ip2ether_]. exact Hc1. }
  pose proof (learn_lookup msg (ticks later sent)) as Hl.
  rewrite Hc2 in Hl. cbn [default] in Hl.
  rewrite (flush_waited_resolved _ _ _ Hl).
  cbn [out_frames_ learn waited_dgrams_ ethernet_address_ fst].
  rewrite Ho2, Hw2, Hip.
  replace (waited_dgrams_ sent !! ip) with (Some ([d1] ++ [d2])).
  2:{ rewrite Hsent. cbn [waited_dgrams_]. by rewrite lookup_insert_eq. }
  cbn [default map app]. unfold ipv4_frame.
  change (ethernet_address_ (learn msg (ticks later sent)))
    with (ethernet_address_ (ticks later sent)).
  rewrite Heth2, Heth. reflexivity.
Qed.

(** C7: an entry of the cache at age 0 is still there, with the time that
    has passed as its age, after any run of ticks that sums to less than
    30000 ms, and [send_datagram] then frames a datagram to its address;
    the tick that brings the sum to 30000 ms or more removes it, and no
    later tick brings it back. *)
Theorem cache_entry_lifetime ni ip eth (before : list Z) dgram :
  ip2ether_ ni !! ip = Some (eth, 0) ->
  Forall (fun ms => 0 <= ms) before ->
  elapsed before < 30000 ->
  (ip2ether_ (ticks before ni) !! ip = Some (eth, elapsed before) /\
   send_datagram dgram ip (ticks before ni)
   = push_frame (ipv4_frame (ticks before ni) eth dgram) (ticks before ni)) /\
  (forall (last : Z) (after : list Z),
     0 <= last ->
     30000 <= elapsed before + last < 2 ^ 64 ->
     ip2ether_ (ticks (before ++ last :: after) ni) !! ip = None).
Proof.
  intros Hentry Hpos Hsum.
  assert (Halive : ip2ether_ (ticks before ni) !! ip = Some (eth, elapsed before)).
  { rewrite <- (Z.add_0_l (elapsed before)).
    apply ticks_mapping_alive; [done|lia|done|]. unfold IP_MAP_TTL. lia. }
  split; [split; [exact Halive|]|].
  - by rewrite (send_datagram_resolved _ _ _ _ Halive).
  - intros last after Hlast Hreach.
    rewrite ticks_app, ticks_cons. apply ticks_unknown.
    cbn [tick ip2ether_]. rewrite lookup_omap, Halive.
    cbn [mbind option_bind]. unfold age_mapping, IP_MAP_TTL. cbn [fst snd].
    rewrite u64_small by (unfold is_u64; lia).
    destruct (Z.leb_spec 30000 (elapsed before + last)); [done|lia].
Qed.

End Facts.

End NetworkInterfaceFacts.

(** ** The statements of network_interface.cc on the concrete collaborators *)

Module NetworkInterfaceRuns.
Import NetworkInterface NetworkInterfaceFacts Fixture.

Lemma recv_frame_not_addressed_witness :
  recv_frame
    (Build_EthernetFrame (Build_EthernetHeader other_mac peer_mac TYPE_IPv4)
       (wire_dgram "for somebody else"))
    host_knowing_peer
  = (None, host_knowing_peer).
Proof.
  apply recv_frame_not_addressed; vm_compute; discriminate.
Defined.

Lemma recv_frame_arp_learns_if_unknown_witness :
  ip2ether_ (recv_frame (peer_arp OPCODE_REQUEST peer_mac) host).2 !! peer_ip
  = Some (peer_mac, 0).
Proof.
  apply (recv_frame_arp_learns_if_unknown (peer_arp OPCODE_REQUEST peer_mac) host
           (Build_ARPMessage OPCODE_REQUEST peer_mac peer_ip host_mac host_ip)).
  - vm_compute. discriminate.
  - left. reflexivity.
  - reflexivity.
  - reflexivity.
Defined.

(** C5 as the specification words it fails when the sender is already in
    the cache: the peer, cached at age 100 under one hardware address,
    answers from another; the entry keeps the old address and the old
    age. *)
Lemma known_sender_not_refreshed :
  ~ refreshes_sender (peer_arp OPCODE_REPLY other_mac) host_knowing_peer.
Proof.
  intros H.
  specialize (H (Build_ARPMessage OPCODE_REPLY other_mac peer_ip host_mac host_ip)
                (or_introl eq_refl) eq_refl eq_refl).
  vm_compute in H. discriminate H.
Qed.

(** The same with a request. *)
Remark request_keeps_known_sender :
  ip2ether_ (recv_frame (peer_arp OPCODE_REQUEST other_mac) host_knowing_peer).2
    !! peer_ip
  = Some (peer_mac, 100).
Proof. reflexivity. Qed.

Lemma two_sends_one_request_then_in_order_witness :
  let sent :=
    send_datagram "second" peer_ip
      (ticks [1000; 3999] (send_datagram "first" peer_ip host)) in
  let answered := recv_frame (peer_arp OPCODE_REPLY peer_mac) (ticks [7000] sent) in
  out_frames_ sent
  = out_frames_ host
      ++ [Build_EthernetFrame
            (Build_EthernetHeader ETHERNET_BROADCAST host_mac TYPE_ARP)
            (wire_arp (Build_ARPMessage OPCODE_REQUEST host_mac host_ip 0 peer_ip))] /\
  answered.1 = None /\
  out_frames_ answered.2
  = out_frames_ sent
      ++ [Build_EthernetFrame (Build_EthernetHeader peer_mac host_mac TYPE_IPv4)
            (wire_dgram "first");
          Build_EthernetFrame (Build_EthernetHeader peer_mac host_mac TYPE_IPv4)
            (wire_dgram "second")].
Proof.
  apply (two_sends_one_request_then_in_order host peer_ip "first" "second"
           [1000; 3999] [7000] (peer_arp OPCODE_REPLY peer_mac)
           (Build_ARPMessage OPCODE_REPLY peer_mac peer_ip host_mac host_ip)).
  - vm_compute. discriminate.
  - vm_compute. discriminate.
  - reflexivity.
  - reflexivity.
  - reflexivity.
  - repeat constructor; lia.
  - vm_compute. reflexivity.
  - left. reflexivity.
  - reflexivity.
  - reflexivity.
  - reflexivity.
  - reflexivity.
Defined.

(** C6 on the code: the host has sent "zero" to the peer and 5000 ms have
    passed without a reply, so the peer has no cache entry and no request
    timer, and "zero" is still waiting.  "first" and "second" are then sent
    1000 ms apart: one ARP request is broadcast, but
    [waited_dgrams_.insert] finds the key present and "first" is not
    queued.  The reply of the peer releases two IPv4 frames, with "zero"
    and with "second"; "first" is in no frame. *)
Theorem send_after_timeout_loses_datagram :
  let stale := tick 5000 (send_datagram "zero" peer_ip host) in
  let sent :=
    send_datagram "second" peer_ip (tick 1000 (send_datagram "first" peer_ip stale)) in
  let answered := recv_frame (peer_arp OPCODE_REPLY peer_mac) sent in
  ip2ether_ stale !! peer_ip = None /\
  arp_timer_ stale !! peer_ip = None /\
  out_frames_ sent
  = out_frames_ stale
      ++ [Build_EthernetFrame
            (Build_EthernetHeader ETHERNET_BROADCAST host_mac TYPE_ARP)
            (wire_arp (Build_ARPMessage OPCODE_REQUEST host_mac host_ip 0 peer_ip))] /\
  waited_dgrams_ sent !! peer_ip = Some ["zero"; "second"] /\
  out_frames_ answered.2
  = out_frames_ sent
      ++ [Build_EthernetFrame (Build_EthernetHeader peer_mac host_mac TYPE_IPv4)
            (wire_dgram "zero");
          Build_EthernetFrame (Build_EthernetHeader peer_mac host_mac TYPE_IPv4)
            (wire_dgram "second")].
Proof. repeat split. Qed.

Lemma cache_entry_lifetime_witness :
  let learnt := (recv_frame (peer_arp OPCODE_REQUEST peer_mac) host).2 in
  ip2ether_ (ticks [10000; 19999] learnt) !! peer_ip = Some (peer_mac, 29999) /\
  ip2ether_ (ticks ([10000; 19999] ++ [1; 5]) learnt) !! peer_ip = None.
Proof.
  intros learnt.
  destruct (cache_entry_lifetime learnt peer_ip peer_mac [10000; 19999] "hello")
    as [[Halive _] Hgone].
  - reflexivity.
  - repeat constructor; lia.
  - vm_compute. reflexivity.
  - split; [exact Halive|].
    apply (Hgone 1 [5]); [lia|]. vm_compute. split; [discriminate|reflexivity].
Defined.

End NetworkInterfaceRuns.

(** ** Further properties of wrapping_integers.cc *)

Module Wrap32More.
Import Wrap32 Wrap32Facts.

Lemma u64_small_eq (x y : Z) : is_u64 y -> x = y -> u64 x = y.
Proof. intros Hy ->. by apply u64_small. Qed.

(** X1: whatever the checkpoint, wrapping what [unwrap] returns gives the
    sequence number back. *)
Theorem wrap_unwrap (w zero_point : t) (checkpoint : Z) :
  wf w -> wrap (unwrap w zero_point checkpoint) zero_point = w.
Proof.
  intros Hw. destruct w as [raw]. unfold wf, is_u32 in Hw. cbn [raw_value_] in Hw.
  unfold wrap, add. f_equal.
  unfold unwrap, unwrap_guard.
  rewrite unwrap_left_eq, unwrap_right_eq. unfold unwrap_check.
  rewrite u64_shift32, shift32. cbn [raw_value_]. unfold u32, u64.
  change (2 ^ 64) with 18446744073709551616.
  change (2 ^ 32) with 4294967296 in *.
  destruct (_ && _); Z.to_euclidean_division_equations; lia.
Qed.

Lemma wrap_unwrap_witness :
  wrap (unwrap (Wrap32 7) (Wrap32 4294967290) (2 ^ 40)) (Wrap32 4294967290) = Wrap32 7.
Proof.
  apply (wrap_unwrap (Wrap32 7) (Wrap32 4294967290) (2 ^ 40)).
  unfold wf, is_u32. cbn [raw_value_]. lia.
Defined.

(** X2: an index that lies less than 2^31 below the checkpoint, or at most 2^31
    above it, is recovered exactly. *)
Theorem unwrap_wrap_near (n : Z) (zero_point : t) (checkpoint : Z) :
  is_u64 n -> is_u64 checkpoint ->
  - 2 ^ 31 < n - checkpoint <= 2 ^ 31 ->
  unwrap (wrap n zero_point) zero_point checkpoint = n.
Proof.
  intros Hn Hc Hnear.
  pose proof (unwrap_left_range (wrap n zero_point) zero_point checkpoint) as HL.
  pose proof (unwrap_right_range (wrap n zero_point) zero_point checkpoint) as HR.
  pose proof (left_right_lap (wrap n zero_point) zero_point checkpoint) as Hlap.
  pose proof (right_residue n zero_point checkpoint) as Hres.
  unfold unwrap, unwrap_guard.
  set (L := unwrap_left (wrap n zero_point) zero_point checkpoint) in *.
  set (R := unwrap_right (wrap n zero_point) zero_point checkpoint) in *.
  destruct (same_residue_diff (checkpoint + R) n (2 ^ 32)) as [q Hq]; [lia|exact Hres|].
  unfold is_u32, is_u64 in *.
  destruct (Z.ltb_spec L R) as [Hlt|Hge]; cbn [andb];
    [destruct (Z.leb_spec L checkpoint) as [Hle|Hgt]|];
    (apply u64_small_eq; [unfold is_u64; lia | lia]).
Qed.

Lemma unwrap_wrap_near_witness :
  unwrap (wrap (3 * 2 ^ 32 + 17) (Wrap32 1000)) (Wrap32 1000) (3 * 2 ^ 32 - 5)
  = 3 * 2 ^ 32 + 17.
Proof.
  apply (unwrap_wrap_near (3 * 2 ^ 32 + 17) (Wrap32 1000) (3 * 2 ^ 32 - 5));
    unfold is_u64; lia.
Defined.

(** X3: for a checkpoint at least 2^31 away from both ends of the 64-bit range,
    the result is never further than 2^31 from the checkpoint. *)
Theorem unwrap_within_half_lap (w zero_point : t) (checkpoint : Z) :
  2 ^ 31 <= checkpoint -> checkpoint + 2 ^ 31 < 2 ^ 64 ->
  Z.abs (unwrap w zero_point checkpoint - checkpoint) <= 2 ^ 31.
Proof.
  intros Hlow Hhigh.
  pose proof (unwrap_left_range w zero_point checkpoint) as HL.
  pose proof (unwrap_right_range w zero_point checkpoint) as HR.
  pose proof (left_right_lap w zero_point checkpoint) as Hlap.
  unfold unwrap, unwrap_guard.
  set (L := unwrap_left w zero_point checkpoint) in *.
  set (R := unwrap_right w zero_point checkpoint) in *.
  unfold is_u32 in *.
  destruct (Z.ltb_spec L R) as [Hlt|Hge]; cbn [andb];
    [destruct (Z.leb_spec L checkpoint) as [Hle|Hgt]|];
    rewrite u64_small by (unfold is_u64; lia); lia.
Qed.

Lemma unwrap_within_half_lap_witness :
  Z.abs (unwrap (Wrap32 5) (Wrap32 9) (2 ^ 33) - 2 ^ 33) <= 2 ^ 31.
Proof. apply (unwrap_within_half_lap (Wrap32 5) (Wrap32 9) (2 ^ 33)); lia. Defined.

End Wrap32More.

(** ** Further properties of reassembler.cc *)

Module ReassemblerMore.
Import Reassembler ReassemblerFacts.

Lemma size_nonneg (s : bytes) : 0 <= size s.
Proof. unfold size. lia. Qed.

Lemma size_pos (s : bytes) : s <> [] -> 0 < size s.
Proof. destruct s; [done|]. unfold size. cbn [length]. lia. Qed.

Lemma size_take (n : Z) (s : bytes) :
  0 <= n <= size s -> size (take (Z.to_nat n) s) = n.
Proof. unfold size. intros H. rewrite length_take. lia. Qed.

Lemma size_drop (n : Z) (s : bytes) :
  0 <= n <= size s -> size (drop (Z.to_nat n) s) = size s - n.
Proof. unfold size. intros H. rewrite length_drop. lia. Qed.

Lemma size_replicate (n : Z) (c : Ascii.ascii) :
  0 <= n -> size (replicate (Z.to_nat n) c) = n.
Proof. unfold size. intros H. rewrite length_replicate. lia. Qed.

(** *** The binary search on ranges where the test is constant *)

Lemma bisect_all_left go buf (fuel first len : nat) :
  (forall i nd, (first <= i < first + len)%nat -> buf !! i = Some nd -> go nd = false) ->
  bisect go buf fuel first len = first.
Proof.
  revert first len. induction fuel as [|fuel IH]; intros first len Hgo; [done|].
  cbn [bisect]. destruct (decide (len = 0%nat)) as [|Hne]; [done|].
  pose proof (Nat.div2_decr len (Nat.pred len) ltac:(lia)) as Hhalf.
  generalize dependent (Nat.div2 len). intros half Hhalf.
  destruct (buf !! (first + half)%nat) as [nd|] eqn:E; [|done].
  rewrite (Hgo (first + half)%nat nd) by (done || lia).
  apply IH. intros i nd' Hi. apply Hgo. lia.
Qed.

Lemma bisect_all_right go buf (fuel first len : nat) :
  (len <= fuel)%nat -> (first + len <= length buf)%nat ->
  (forall i nd, (first <= i < first + len)%nat -> buf !! i = Some nd -> go nd = true) ->
  bisect go buf fuel first len = (first + len)%nat.
Proof.
  revert first len. induction fuel as [|fuel IH]; intros first len Hfuel Hlen Hgo.
  - cbn [bisect]. lia.
  - cbn [bisect]. destruct (decide (len = 0%nat)) as [|Hne]; [lia|].
    pose proof (Nat.div2_decr len (Nat.pred len) ltac:(lia)) as Hhalf.
    generalize dependent (Nat.div2 len). intros half Hhalf.
    destruct (lookup_lt_is_Some_2 buf (first + half)%nat ltac:(lia)) as [nd E].
    rewrite E, (Hgo (first + half)%nat nd) by (done || lia).
    rewrite IH; [lia|lia|lia|].
    intros i nd' Hi. apply Hgo. lia.
Qed.

(** *** The drain loop *)

Lemma drain_props buf next sz hl out :
  had_last_ (drain buf next sz hl out).1 = hl /\
  front_at_cursor (drain buf next sz hl out).1 = false /\
  (exists k, Writer.pushed (drain buf next sz hl out).2 = Writer.pushed out ++ k) /\
  Writer.closed (drain buf next sz hl out).2 = Writer.closed out.
Proof.
  revert next sz out. induction buf as [|nd rest IH]; intros next sz out.
  - cbn. split_and!; try done. exists []. by rewrite app_nil_r.
  - cbn [drain]. destruct (get0 nd =? next) eqn:E.
    + cbn [push_data_to_stream next_stream_index_].
      destruct (IH (u64 (next + size (get2 nd))) (u64 (sz - size (get2 nd)))
                  (Writer.push (get2 nd) out)) as (H1 & H2 & [k H3] & H4).
      split_and!; try done.
      rewrite H3. cbn [Writer.push Writer.pushed]. rewrite <- app_assoc. eauto.
    + cbn [fst snd]. unfold front_at_cursor. cbn [store_buffer_ next_stream_index_].
      split_and!; try done. exists []. by rewrite app_nil_r.
Qed.

Lemma push_store_props r out :
  had_last_ (push_store_data_to_stream r out).1 = had_last_ r /\
  front_at_cursor (push_store_data_to_stream r out).1 = false /\
  (exists k, Writer.pushed (push_store_data_to_stream r out).2 = Writer.pushed out ++ k) /\
  (Writer.closed out = true ->
   Writer.closed (push_store_data_to_stream r out).2 = true).
Proof.
  unfold push_store_data_to_stream.
  destruct (drain_props (store_buffer_ r) (next_stream_index_ r) (store_data_size_ r)
              (had_last_ r) out) as (H1 & H2 & H3 & H4).
  destruct (drain _ _ _ _ _) as [r' out']. cbn [fst snd] in *.
  destruct (had_last_ r' && _); cbn [fst snd Writer.close Writer.pushed Writer.closed];
    split_and!; try done. intros Hc. by rewrite H4.
Qed.

(** [store_data] moves neither the cursor nor the end-of-stream flag. *)
Lemma store_data_frame data b e r r1 :
  store_data data b e r = Ok r1 ->
  next_stream_index_ r1 = next_stream_index_ r /\ had_last_ r1 = had_last_ r.
Proof.
  unfold store_data, mbind, result_bind. intros H.
  repeat case_match; simplify_eq; done.
Qed.

(** The ways through [insert] that return: nothing happens, or the output
    is closed at once, or the data goes to the output or into the pending
    buffer and the drain follows. *)
Lemma insert_cases first_index data is_last r output r' output' :
  insert first_index data is_last r output = Ok (r', output') ->
  (r' = r /\ (output' = output \/ output' = Writer.close output)) \/
  exists r1 output1 is_last',
    (r', output')
    = push_store_data_to_stream
        (Reassembler (next_stream_index_ r1) (store_buffer_ r1) (store_data_size_ r1)
           (had_last_ r1 || is_last')) output1 /\
    ((exists d, (r1, output1) = push_data_to_stream d r output) \/
     (exists d b e, store_data d b e r = Ok r1 /\ output1 = output)).
Proof.
  unfold insert, mbind, result_bind. intros H.
  repeat case_match; simplify_eq;
    first
      [ by eauto 10
      | right; do 3 eexists; split; [symmetry; eassumption|];
        first [ left; eexists; reflexivity
              | right; do 3 eexists; split; [eassumption|reflexivity] ] ].
Qed.

(** *** What every returning call keeps *)

(** X9: a call of [insert] that returns leaves no front node starting at the
    cursor, when there was none before: whatever can be drained has been
    drained. *)
Theorem insert_keeps_front_off_cursor first_index data is_last r output r' output' :
  front_at_cursor r = false ->
  insert first_index data is_last r output = Ok (r', output') ->
  front_at_cursor r' = false.
Proof.
  intros Hfront H.
  destruct (insert_cases _ _ _ _ _ _ _ H) as [[-> _]|(r1 & w1 & il & Hres & _)];
    [exact Hfront|].
  pose proof (push_store_props
                (Reassembler (next_stream_index_ r1) (store_buffer_ r1)
                   (store_data_size_ r1) (had_last_ r1 || il)) w1) as (_ & Hf & _).
  by rewrite <- Hres in Hf.
Qed.

Lemma insert_keeps_front_off_cursor_witness :
  front_at_cursor (Reassembler 4 [(7, 7, str "x")] 1 false) = false.
Proof.
  apply (insert_keeps_front_off_cursor 0 (str "ab") false
           (Reassembler 0 [(2, 3, str "cd"); (7, 7, str "x")] 3 false)
           (Writer.init 9) (Reassembler 4 [(7, 7, str "x")] 1 false)
           (Writer.Writer (str "abcd") 5 false)).
  - reflexivity.
  - reflexivity.
Defined.

(** X10: a call of [insert] that returns only appends to the output: the bytes
    written before are still there, in front and unchanged. *)
Theorem insert_appends_only first_index data is_last r output r' output' :
  insert first_index data is_last r output = Ok (r', output') ->
  exists k, Writer.pushed output' = Writer.pushed output ++ k.
Proof.
  intros H.
  destruct (insert_cases _ _ _ _ _ _ _ H)
    as [[_ [->| ->]]|(r1 & w1 & il & Hres & Hpath)].
  - exists []. by rewrite app_nil_r.
  - exists []. cbn [Writer.close Writer.pushed]. by rewrite app_nil_r.
  - pose proof (push_store_props
                  (Reassembler (next_stream_index_ r1) (store_buffer_ r1)
                     (store_data_size_ r1) (had_last_ r1 || il)) w1)
      as (_ & _ & [k Hk] & _).
    rewrite <- Hres in Hk. cbn [snd] in Hk. rewrite Hk.
    destruct Hpath as [[d Hd]|(d & b & e & _ & ->)]; [|eauto].
    unfold push_data_to_stream in Hd. simplify_eq.
    cbn [Writer.push Writer.pushed]. rewrite <- app_assoc. eauto.
Qed.

Lemma insert_appends_only_witness :
  exists k, str "abcd" = str "" ++ k.
Proof.
  apply (insert_appends_only 0 (str "ab") false
           (Reassembler 0 [(2, 3, str "cd"); (7, 7, str "x")] 3 false)
           (Writer.init 9) (Reassembler 4 [(7, 7, str "x")] 1 false)
           (Writer.Writer (str "abcd") 5 false)).
  reflexivity.
Defined.

(** X11: a call of [insert] that returns never takes back the end of the stream:
    a set [had_last_] stays set, and a closed output stays closed. *)
Theorem insert_keeps_end_marks first_index data is_last r output r' output' :
  insert first_index data is_last r output = Ok (r', output') ->
  (had_last_ r = true -> had_last_ r' = true) /\
  (Writer.closed output = true -> Writer.closed output' = true).
Proof.
  intros H.
  destruct (insert_cases _ _ _ _ _ _ _ H)
    as [[-> [->| ->]]|(r1 & w1 & il & Hres & Hpath)]; [done|done|].
  pose proof (push_store_props
                (Reassembler (next_stream_index_ r1) (store_buffer_ r1)
                   (store_data_size_ r1) (had_last_ r1 || il)) w1)
    as (Hl & _ & _ & Hc).
  rewrite <- Hres in Hl, Hc. cbn [fst snd had_last_] in Hl, Hc.
  destruct Hpath as [[d Hd]|(d & b & e & Hs & ->)].
  - unfold push_data_to_stream in Hd. simplify_eq.
    cbn [had_last_ Writer.push Writer.closed] in *.
    split; [intros Hr; by rewrite Hl, Hr|exact Hc].
  - destruct (store_data_frame _ _ _ _ _ Hs) as [_ Hh].
    split; [intros Hr; by rewrite Hl, Hh, Hr|exact Hc].
Qed.

Lemma insert_keeps_end_marks_witness :
  had_last_ (Reassembler 3 [(5, 6, str "fg")] 2 true) = true.
Proof.
  apply (insert_keeps_end_marks 0 (str "abc") false
           (Reassembler 0 [(5, 6, str "fg")] 2 true) (Writer.init 9)
           (Reassembler 3 [(5, 6, str "fg")] 2 true)
           (Writer.Writer (str "abc") 6 false)).
  - reflexivity.
  - reflexivity.
Defined.

(** *** Data at the cursor, nothing pending *)

(** X4: with an empty pending buffer, data that starts at the cursor is pushed
    at once, as much of it as the output has room for; the cursor moves by
    the number of bytes pushed; the end of the stream is taken note of only
    when nothing was cut off, and the output is closed as soon as the flag
    is set. *)
Theorem insert_in_order data is_last r output :
  data <> [] ->
  store_buffer_ r = [] ->
  0 <= next_stream_index_ r ->
  0 < Writer.available output ->
  next_stream_index_ r + size data < 2 ^ 64 ->
  next_stream_index_ r + Writer.available output < 2 ^ 64 ->
  size data <= string_max_size ->
  let n := Z.min (size data) (Writer.available output) in
  let flag := had_last_ r || (is_last && (size data <=? Writer.available output)) in
  insert (next_stream_index_ r) data is_last r output
  = Ok (Reassembler (next_stream_index_ r + n) [] (store_data_size_ r) flag,
        Writer.Writer (Writer.pushed output ++ take (Z.to_nat n) data)
          (Writer.available output - n)
          (if flag then true else Writer.closed output)).
Proof.
  intros Hne Hbuf Hnext Havail Hright Hend Hmax n flag. subst n flag.
  destruct r as [next buf sz hl]. destruct output as [pushed avail closed].
  cbn [next_stream_index_ store_buffer_ store_data_size_ had_last_
       Writer.available Writer.pushed Writer.closed] in *.
  subst buf. pose proof (size_pos data Hne) as Hpos.
  unfold insert, Writer.available_capacity.
  rewrite bool_decide_eq_false_2 by exact Hne.
  cbn [next_stream_index_ store_buffer_ store_data_size_ had_last_ Writer.available].
  rewrite (u64_small (next + size data)), (u64_small (next + avail))
    by (unfold is_u64; lia).
  rewrite Z.eqb_refl.
  destruct (Z.leb_spec (size data) avail) as [Hfit|Hcut].
  - settle_tests. cbn [orb andb mbind result_bind].
    unfold push_data_to_stream, push_store_data_to_stream, Writer.push.
    cbn [next_stream_index_ store_buffer_ store_data_size_ had_last_ drain
         Writer.available Writer.pushed Writer.closed].
    settle_tests.
    rewrite (u64_small (next + size data)) by (unfold is_u64; lia).
    rewrite (take_ge data) by (unfold size; lia).
    by destruct hl, is_last.
  - settle_tests. cbn [orb andb mbind result_bind].
    unfold string_resize.
    replace (next + avail - next) with avail by lia.
    rewrite (u64_small avail) by (unfold is_u64; lia).
    settle_tests. cbn [mbind result_bind].
    rewrite resize_le by (unfold size in *; lia).
    unfold push_data_to_stream, push_store_data_to_stream, Writer.push.
    cbn [next_stream_index_ store_buffer_ store_data_size_ had_last_ drain
         Writer.available Writer.pushed Writer.closed].
    rewrite size_take by lia. settle_tests.
    rewrite (u64_small (next + avail)) by (unfold is_u64; lia).
    rewrite take_take, Nat.min_id.
    by destruct hl, is_last.
Qed.

Lemma insert_in_order_witness :
  insert 3 (str "defgh") true (Reassembler 3 [] 0 false)
    (Writer.Writer (str "abc") 2 false)
  = Ok (Reassembler 5 [] 0 false, Writer.Writer (str "abcde") 0 false).
Proof.
  apply (insert_in_order (str "defgh") true (Reassembler 3 [] 0 false)
           (Writer.Writer (str "abc") 2 false));
    cbn; first [done | lia].
Defined.

(** *** Nothing pending: what is stored, and the counter *)

Lemma store_data_empty data b e r r1 :
  store_buffer_ r = [] ->
  store_data data b e r = Ok r1 ->
  r1 = Reassembler (next_stream_index_ r) [(b, e, data)] (store_data_size_ r)
         (had_last_ r).
Proof.
  intros Hbuf H. unfold store_data, lower_bound, upper_bound in H.
  rewrite Hbuf in H. cbn -[u64 string_fill copy_at size Z.add Z.sub] in H.
  unfold mbind, result_bind in H.
  repeat case_match; simplify_eq; done.
Qed.

(** X8: with an empty pending buffer, a call of [insert] that returns leaves
    [bytes_pending] as it was, whether the data was pushed, dropped or put
    into the buffer. *)
Theorem insert_empty_buffer_keeps_counter first_index data is_last r output r' output' :
  store_buffer_ r = [] ->
  insert first_index data is_last r output = Ok (r', output') ->
  bytes_pending r' = bytes_pending r.
Proof.
  intros Hbuf H. unfold insert, mbind, result_bind in H. rewrite Hbuf in H.
  repeat case_match; simplify_eq; try done.
  all: try match goal with
       | Hs : store_data _ _ _ _ = Ok _ |- _ =>
           apply store_data_empty in Hs; [subst|assumption]
       end.
  all: unfold push_data_to_stream, push_store_data_to_stream in *.
  all: cbn [next_stream_index_ store_buffer_ store_data_size_ had_last_ drain
            get0 fst snd] in *.
  all: rewrite ?Hbuf in *; cbn [drain] in *.
  all: try match goal with
       | Ht : (_ =? _) && true = false |- _ =>
           rewrite andb_true_r in Ht; rewrite ?Ht in *
       end.
  all: repeat case_match; by simplify_eq.
Qed.

Lemma insert_empty_buffer_keeps_counter_witness :
  bytes_pending (Reassembler 0 [(4, 5, str "ef")] 0 false) = bytes_pending init.
Proof.
  apply (insert_empty_buffer_keeps_counter 4 (str "ef") false init (Writer.init 8)
           (Reassembler 0 [(4, 5, str "ef")] 0 false) (Writer.init 8)).
  - reflexivity.
  - reflexivity.
Defined.

(** Into an empty buffer [store_data] puts one node, with the indices as
    given, as long as the payload is no longer than the range. *)
Lemma store_data_empty_ok data b e r :
  store_buffer_ r = [] ->
  size data <= u64 (e - b + 1) <= string_max_size ->
  store_data data b e r
  = Ok (Reassembler (next_stream_index_ r) [(b, e, data)] (store_data_size_ r)
          (had_last_ r)).
Proof.
  intros Hbuf Hlen. unfold store_data, lower_bound, upper_bound.
  rewrite Hbuf. cbn [length Nat.sub bisect].
  destruct (decide (0%nat ≠ 0%nat)) as [?|_]; [done|].
  cbn [mbind result_bind take drop app].
  destruct ((size data =? u64 (e - b + 1)) && _); [done|].
  unfold string_fill. settle_tests. cbn [mbind result_bind absorb].
  pose proof (u64_range (e - b + 1)) as Hr. unfold is_u64 in Hr.
  unfold copy_at. rewrite size_replicate by lia.
  replace (b - b) with 0 by lia. pose proof (size_nonneg data).
  settle_tests. done.
Qed.

(** X6: with an empty pending buffer, data that starts before the cursor and
    ends at it or beyond, within the window, is not pushed: what is left of
    it after the cursor goes into the pending buffer under the first and
    last index of the whole range; cursor, counter and output stay as they
    are. *)
Theorem insert_across_cursor first_index data is_last r output :
  store_buffer_ r = [] ->
  0 <= first_index < next_stream_index_ r ->
  next_stream_index_ r <= first_index + size data ->
  first_index + size data <= next_stream_index_ r + Writer.available output ->
  next_stream_index_ r + Writer.available output < 2 ^ 64 ->
  size data <= string_max_size ->
  insert first_index data is_last r output
  = Ok (Reassembler (next_stream_index_ r)
          [(first_index, first_index + size data - 1,
            drop (Z.to_nat (next_stream_index_ r - first_index)) data)]
          (store_data_size_ r) (had_last_ r || is_last),
        output).
Proof.
  intros Hbuf Hfirst Hreach Hwin Hend Hmax.
  destruct r as [next buf sz hl]. destruct output as [pushed avail closed].
  cbn [next_stream_index_ store_buffer_ store_data_size_ had_last_
       Writer.available Writer.pushed Writer.closed] in *.
  subst buf.
  assert (Hne : data <> []) by (intros ->; unfold size in *; cbn in *; lia).
  unfold insert, Writer.available_capacity.
  rewrite bool_decide_eq_false_2 by exact Hne.
  cbn [next_stream_index_ store_buffer_ store_data_size_ had_last_ Writer.available].
  rewrite (u64_small (first_index + size data)), (u64_small (next + avail)),
    (u64_small (next - first_index)) by (unfold is_u64; lia).
  settle_tests. cbn [orb]. unfold substr. settle_tests.
  cbn [mbind result_bind].
  rewrite (proj2 (Z.eqb_neq first_index next)) by lia. cbn [andb].
  rewrite (u64_small (first_index + size data - 1)) by (unfold is_u64; lia).
  set (rest := drop (Z.to_nat (next - first_index)) data).
  assert (Hrest : size rest = size data - (next - first_index))
    by (apply size_drop; lia).
  rewrite store_data_empty_ok; [|done|].
  2:{ replace (first_index + size data - 1 - first_index + 1) with (size data) by lia.
      rewrite (u64_small (size data)) by (unfold is_u64; lia). lia. }
  cbn [mbind result_bind].
  unfold push_store_data_to_stream.
  cbn [next_stream_index_ store_buffer_ store_data_size_ had_last_ drain get0 fst].
  rewrite (proj2 (Z.eqb_neq first_index next)) by lia.
  cbn [had_last_ store_buffer_]. rewrite bool_decide_eq_false_2 by done.
  by rewrite andb_false_r.
Qed.

Lemma insert_across_cursor_witness :
  insert 1 (str "bcde") true (Reassembler 3 [] 0 false)
    (Writer.Writer (str "abc") 5 false)
  = Ok (Reassembler 3 [(1, 1 + 4 - 1, str "de")] 0 true,
        Writer.Writer (str "abc") 5 false).
Proof.
  apply (insert_across_cursor 1 (str "bcde") true (Reassembler 3 [] 0 false)
           (Writer.Writer (str "abc") 5 false));
    cbn; first [done | lia].
Defined.

(** *** Data in front of everything that is pending *)

(** A range that no pending node precedes or overlaps ([begin] is not past
    the last index of any node, [end] not past the first index of any):
    [left] is the first node, [right] is [end()], and [get<1>( *right )]
    dereferences it. *)
Lemma store_data_before_all_nodes data b e r :
  store_buffer_ r <> [] ->
  Forall (fun nd => b <= get1 nd /\ e <= get0 nd) (store_buffer_ r) ->
  store_data data b e r = Fault undefined_behaviour.
Proof.
  intros Hne Hall. unfold store_data, lower_bound, upper_bound.
  set (buf := store_buffer_ r) in *.
  assert (Hlen : (0 < length buf)%nat) by (destruct buf; [done|cbn; lia]).
  rewrite Nat.sub_0_r.
  rewrite bisect_all_left.
  2:{ intros i nd _ Hi. destruct (Forall_lookup_1 _ _ _ _ Hall Hi) as [H1 _].
      apply Z.ltb_ge. exact H1. }
  rewrite Nat.sub_0_r, bisect_all_right; [|lia|lia|].
  2:{ intros i nd _ Hi. destruct (Forall_lookup_1 _ _ _ _ Hall Hi) as [_ H2].
      apply negb_true_iff, Z.ltb_ge. exact H2. }
  destruct (decide (0%nat ≠ length buf)) as [_|]; [|lia].
  destruct (lookup_lt_is_Some_2 buf 0 Hlen) as [nd0 E0]. rewrite E0.
  cbn [mbind result_bind].
  destruct (decide ((0 + length buf)%nat ≠ 0%nat)) as [_|]; [|lia].
  by rewrite (lookup_ge_None_2 buf (0 + length buf)) by lia.
Qed.

(** X7: data inside the window that starts at or after the cursor, is not
    pushed directly, and lies in front of every pending node without
    reaching into any, makes [insert] dereference [end()] of the pending
    buffer: the call has no defined result. *)
Theorem insert_before_all_pending first_index data is_last r output front rest :
  data <> [] ->
  store_buffer_ r = front :: rest ->
  0 <= next_stream_index_ r <= first_index ->
  first_index + size data <= next_stream_index_ r + Writer.available output ->
  next_stream_index_ r + Writer.available output < 2 ^ 64 ->
  first_index <> next_stream_index_ r \/ get1 front <= first_index + size data ->
  Forall (fun nd => first_index <= get1 nd /\ first_index + size data - 1 <= get0 nd)
    (front :: rest) ->
  insert first_index data is_last r output = Fault undefined_behaviour.
Proof.
  intros Hne Hbuf Hnext Hwin Hend Hstore Hall.
  pose proof (size_pos data Hne) as Hpos.
  unfold insert, Writer.available_capacity.
  rewrite bool_decide_eq_false_2 by exact Hne.
  rewrite (u64_small (first_index + size data)),
    (u64_small (next_stream_index_ r + Writer.available output))
    by (unfold is_u64; lia).
  settle_tests. cbn [orb mbind result_bind].
  rewrite Hbuf.
  replace ((first_index =? next_stream_index_ r)
           && (first_index + size data <? get1 front)) with false.
  2:{ symmetry. apply andb_false_iff.
      destruct Hstore as [H|H]; [left; by apply Z.eqb_neq|right; by apply Z.ltb_ge]. }
  rewrite (u64_small (first_index + size data - 1)) by (unfold is_u64; lia).
  rewrite store_data_before_all_nodes; [done| |]; by rewrite Hbuf.
Qed.

Lemma insert_before_all_pending_witness :
  insert 0 (str "a") false (Reassembler 0 [(1, 1, str "b")] 0 false) (Writer.init 8)
  = Fault undefined_behaviour.
Proof.
  apply (insert_before_all_pending 0 (str "a") false
           (Reassembler 0 [(1, 1, str "b")] 0 false) (Writer.init 8)
           (1, 1, str "b") []).
  - done.
  - reflexivity.
  - vm_compute. split; discriminate.
  - vm_compute. discriminate.
  - vm_compute. reflexivity.
  - right. vm_compute. discriminate.
  - repeat constructor; vm_compute; discriminate.
Defined.

(** *** Filling the gap in front of the first pending node *)

Lemma drain_stops buf next sz hl out :
  front_at_cursor (Reassembler next buf 0 false) = false ->
  drain buf next sz hl out = (Reassembler next buf sz hl, out).
Proof.
  unfold front_at_cursor. cbn [store_buffer_ next_stream_index_].
  destruct buf as [|nd rest]; [done|]. intros H. cbn [drain]. by rewrite H.
Qed.

(** X5: data at the cursor that ends exactly where the first pending node
    starts, when that node spans more than one index and both fit into the
    output: the data and the node's payload are pushed in this order, the
    node leaves the buffer and its length is taken off the counter, the
    cursor ends behind the payload; the output is closed when the flag is set
    and nothing is left pending. *)
Theorem insert_fills_gap data is_last r output s e p rest :
  data <> [] ->
  store_buffer_ r = (s, e, p) :: rest ->
  0 <= next_stream_index_ r ->
  next_stream_index_ r + size data = s ->
  s < e ->
  front_at_cursor (Reassembler (s + size p) rest 0 false) = false ->
  size data + size p <= Writer.available output ->
  next_stream_index_ r + Writer.available output < 2 ^ 64 ->
  size data <= string_max_size ->
  let flag := had_last_ r || is_last in
  insert (next_stream_index_ r) data is_last r output
  = Ok (Reassembler (s + size p) rest (u64 (store_data_size_ r - size p)) flag,
        Writer.Writer (Writer.pushed output ++ data ++ p)
          (Writer.available output - size data - size p)
          (if flag && bool_decide (rest = []) then true else Writer.closed output)).
Proof.
  intros Hne Hbuf Hnext Hadj Hspan Hstop Hfit Hend Hmax flag. subst flag.
  destruct r as [next buf sz hl]. destruct output as [pushed avail closed].
  cbn [next_stream_index_ store_buffer_ store_data_size_ had_last_
       Writer.available Writer.pushed Writer.closed] in *.
  subst buf. pose proof (size_pos data Hne) as Hpos.
  pose proof (size_nonneg p) as Hp.
  unfold insert, Writer.available_capacity.
  rewrite bool_decide_eq_false_2 by exact Hne.
  cbn [next_stream_index_ store_buffer_ store_data_size_ had_last_ Writer.available
       get0 get1 fst snd].
  rewrite (u64_small (next + size data)), (u64_small (next + avail))
    by (unfold is_u64; lia).
  rewrite Z.eqb_refl, !Hadj.
  settle_tests. cbn [orb andb mbind result_bind].
  settle_tests. cbn [orb andb mbind result_bind].
  unfold string_resize.
  replace (s - next) with (size data) by lia.
  rewrite (u64_small (size data)) by (unfold is_u64; lia).
  settle_tests. cbn [mbind result_bind].
  replace (Z.to_nat (size data)) with (length data) by (unfold size; lia).
  rewrite resize_all.
  unfold push_data_to_stream, push_store_data_to_stream, Writer.push.
  cbn [next_stream_index_ store_buffer_ store_data_size_ had_last_ drain get0 get2
       fst snd Writer.available Writer.pushed Writer.closed].
  settle_tests.
  rewrite Hadj, (u64_small s) by (unfold is_u64; lia).
  rewrite Z.eqb_refl.
  unfold push_data_to_stream, Writer.push.
  cbn [next_stream_index_ Writer.available Writer.pushed Writer.closed].
  settle_tests.
  rewrite (u64_small (s + size p)) by (unfold is_u64; lia).
  rewrite drain_stops by exact Hstop.
  cbn [had_last_ store_buffer_].
  rewrite !take_ge by (unfold size in *; lia).
  rewrite <- app_assoc.
  by destruct (_ && _).
Qed.

Lemma insert_fills_gap_witness :
  insert 0 (str "ab") true
    (Reassembler 0 [(2, 3, str "cd"); (7, 7, str "x")] 3 false) (Writer.init 9)
  = Ok (Reassembler (2 + 2) [(7, 7, str "x")] (u64 (3 - 2)) true,
        Writer.Writer (str "abcd") (9 - 2 - 2) false).
Proof.
  apply (insert_fills_gap (str "ab") true
           (Reassembler 0 [(2, 3, str "cd"); (7, 7, str "x")] 3 false)
           (Writer.init 9) 2 3 (str "cd") [(7, 7, str "x")]);
    cbn; first [done | lia].
Defined.

End ReassemblerMore.

(** ** Further properties of network_interface.cc *)

Module NetworkInterfaceMore.
Import NetworkInterface NetworkInterfaceFacts.

Section More.
Context {C : Collaborators}.
Implicit Types (ni : t) (frame : EthernetFrame).
Implicit Types (msg : ARPMessage EthernetAddress) (dgram : InternetDatagram).

(** *** recv_frame *)

Lemma passes_addressed_here frame ni :
  bool_decide (dst (header frame) ≠ ethernet_address_ ni)
  && bool_decide (dst (header frame) ≠ ETHERNET_BROADCAST) = false ->
  addressed_here frame ni.
Proof.
  intros H. unfold addressed_here.
  destruct (decide (dst (header frame) = ethernet_address_ ni)) as [|H1]; [by left|].
  destruct (decide (dst (header frame) = ETHERNET_BROADCAST)) as [|H2]; [by right|].
  by rewrite !bool_decide_eq_true_2 in H.
Qed.

(** What [recv_frame] can do to the interface: the addresses and the request
    timers stay, and the cache stays or gains the sender of the ARP message
    through [insert]. *)
Lemma recv_frame_state frame ni :
  ethernet_address_ (recv_frame frame ni).2 = ethernet_address_ ni /\
  ip_address_ (recv_frame frame ni).2 = ip_address_ ni /\
  arp_timer_ (recv_frame frame ni).2 = arp_timer_ ni /\
  (ip2ether_ (recv_frame frame ni).2 = ip2ether_ ni \/
   exists msg,
     ip2ether_ (recv_frame frame ni).2
     = map_insert (sender_ip_address msg) (sender_ethernet_address msg, 0)
         (ip2ether_ ni)).
Proof.
  unfold recv_frame.
  destruct (_ && _); [by auto|].
  destruct (type (header frame) =? TYPE_IPv4).
  { destruct (parse_dgram _); by auto. }
  destruct (type (header frame) =? TYPE_ARP); [|by auto].
  destruct (parse_arp _) as [msg|]; [|by auto].
  destruct (opcode msg =? OPCODE_REQUEST).
  { destruct (_ =? _); cbn [snd push_frame learn ethernet_address_ ip_address_
                              arp_timer_ ip2ether_]; eauto 10. }
  destruct (opcode msg =? OPCODE_REPLY);
    [|cbn [snd learn ethernet_address_ ip_address_ arp_timer_ ip2ether_]; eauto 10].
  rewrite learn_twice.
  rewrite (flush_waited_resolved _ _ _ (learn_lookup msg ni)).
  cbn [snd learn ethernet_address_ ip_address_ arp_timer_ ip2ether_]. eauto 10.
Qed.

(** X12: no frame, of whatever kind, changes the request timers: a reply
    does not clear the timer of the request it answers. *)
Theorem recv_frame_keeps_timers frame ni :
  arp_timer_ (recv_frame frame ni).2 = arp_timer_ ni.
Proof. apply recv_frame_state. Qed.

(** X13: [recv_frame] hands out a datagram only for a frame addressed to the
    interface or to everybody, of type IPv4, whose payload parses to that
    datagram; the interface is then left as it was. *)
Theorem recv_frame_delivers_only_ipv4 frame ni dgram :
  (recv_frame frame ni).1 = Some dgram ->
  addressed_here frame ni /\
  type (header frame) = TYPE_IPv4 /\
  parse_dgram (payload frame) = Some dgram /\
  (recv_frame frame ni).2 = ni.
Proof.
  unfold recv_frame.
  destruct (_ && _) eqn:Hdst; [done|].
  apply passes_addressed_here in Hdst.
  destruct (type (header frame) =? TYPE_IPv4) eqn:Hty.
  - apply Z.eqb_eq in Hty.
    destruct (parse_dgram _) as [d|]; [|done].
    cbn [fst snd]. intros [= ->]. done.
  - destruct (type (header frame) =? TYPE_ARP); [|done].
    destruct (parse_arp _) as [msg|]; [|done].
    intros H. repeat case_match; by simplify_eq/=.
Qed.

(** *** maybe_send *)

(** X14: [n] calls of [maybe_send] return the [n] oldest frames of the outbound
    queue, oldest first (all of them when there are no more than [n]), take
    exactly these off the queue and leave the rest of the interface alone. *)
Theorem maybe_send_n_fifo (n : nat) ni :
  maybe_send_n n ni
  = (take n (out_frames_ ni),
     NetworkInterface (ethernet_address_ ni) (ip_address_ ni) (ip2ether_ ni)
       (arp_timer_ ni) (waited_dgrams_ ni) (drop n (out_frames_ ni))).
Proof.
  revert ni. induction n as [|n IH]; intros ni.
  - cbn. by destruct ni.
  - cbn [maybe_send_n]. unfold maybe_send.
    destruct (out_frames_ ni) as [|f rest] eqn:E.
    + cbn. destruct ni. cbn in E. by subst.
    + rewrite IH. cbn. done.
Qed.

(** *** The ages *)

Lemma lookup_map_insert_ne {V : Type} (k k' : Z) (v : V) (m : gmap Z V) :
  k ≠ k' -> map_insert k v m !! k' = m !! k'.
Proof.
  intros Hne. unfold map_insert. destruct (m !! k); [done|].
  by rewrite lookup_insert_ne.
Qed.

Lemma timers_in_range_init eth ip : timers_in_range (init eth ip).
Proof. split; intros *; cbn; by rewrite lookup_empty. Qed.

Lemma tick_brings_in_range (ms : Z) ni : timers_in_range (tick ms ni).
Proof.
  split; cbn [tick ip2ether_ arp_timer_].
  - intros ip eth age. rewrite lookup_omap.
    destruct (ip2ether_ ni !! ip) as [[e a]|]; [|done].
    cbn [mbind option_bind]. unfold age_mapping. cbn [fst snd].
    pose proof (u64_range (a + ms)) as Hr. unfold is_u64 in Hr.
    destruct (Z.leb_spec IP_MAP_TTL (u64 (a + ms))); [done|].
    intros [= <- <-]. lia.
  - intros ip age. rewrite lookup_omap.
    destruct (arp_timer_ ni !! ip) as [a|]; [|done].
    cbn [mbind option_bind]. unfold age_request.
    pose proof (u64_range (a + ms)) as Hr. unfold is_u64 in Hr.
    destruct (Z.leb_spec ARP_REQUEST_TTL (u64 (a + ms))); [done|].
    intros [= <-]. lia.
Qed.

(** X15: every operation keeps every age below its time to live: no cache
    entry is ever 30000 ms old or older, no request timer 5000 ms or
    older. *)
Theorem operations_keep_timers_in_range ni :
  timers_in_range ni ->
  (forall dgram ip, timers_in_range (send_datagram dgram ip ni)) /\
  (forall frame, timers_in_range (recv_frame frame ni).2) /\
  (forall ms, timers_in_range (tick ms ni)) /\
  timers_in_range (maybe_send ni).2.
Proof.
  intros [Hcache Htimer]. split_and!.
  - intros dgram ip. unfold send_datagram.
    destruct (ip2ether_ ni !! ip) as [entry|]; [done|].
    destruct (arp_timer_ ni !! ip) as [age|] eqn:E.
    + destruct (map_subscript _ _ _). done.
    + split; [exact Hcache|]. cbn [arp_timer_ push_frame].
      intros ip' age'. rewrite (map_insert_absent _ _ _ E).
      destruct (decide (ip = ip')) as [->|Hne].
      * rewrite lookup_insert_eq. intros [= <-]. unfold ARP_REQUEST_TTL. lia.
      * rewrite lookup_insert_ne by done. apply Htimer.
  - intros frame.
    destruct (recv_frame_state frame ni) as (_ & _ & Ht & Hc).
    split; [|rewrite Ht; exact Htimer].
    destruct Hc as [->|[msg ->]]; [exact Hcache|].
    intros ip eth age.
    destruct (decide (sender_ip_address msg = ip)) as [<-|Hne].
    + rewrite lookup_map_insert.
      destruct (ip2ether_ ni !! sender_ip_address msg) as [[e a]|] eqn:E;
        cbn [default]; intros [= <- <-].
      * by apply (Hcache _ _ _ E).
      * unfold IP_MAP_TTL. lia.
    + rewrite lookup_map_insert_ne by done. apply Hcache.
  - intros ms. apply tick_brings_in_range.
  - unfold maybe_send. by destruct (out_frames_ ni).
Qed.

(** *** tick *)

Lemma tick_tick (a b : Z) ni :
  timers_in_range ni -> 0 <= a -> 0 <= b -> a + b + IP_MAP_TTL <= 2 ^ 64 ->
  tick b (tick a ni) = tick (a + b) ni.
Proof.
  intros [Hcache Htimer] Ha Hb Hsum. unfold IP_MAP_TTL in Hsum.
  unfold tick. cbn [ethernet_address_ ip_address_ ip2ether_ arp_timer_
                    waited_dgrams_ out_frames_].
  f_equal; apply map_eq; intros ip; rewrite !lookup_omap.
  - destruct (ip2ether_ ni !! ip) as [[eth age]|] eqn:E; [|done].
    pose proof (Hcache _ _ _ E) as Hr. unfold IP_MAP_TTL in Hr.
    cbn [mbind option_bind]. unfold age_mapping, IP_MAP_TTL. cbn [fst snd].
    rewrite (u64_small (age + a)), (u64_small (age + (a + b)))
      by (unfold is_u64; lia).
    destruct (Z.leb_spec 30000 (age + a)); cbn [mbind option_bind fst snd].
    + by rewrite (proj2 (Z.leb_le 30000 (age + (a + b)))) by lia.
    + rewrite (u64_small (age + a + b)) by (unfold is_u64; lia).
      by rewrite Z.add_assoc.
  - destruct (arp_timer_ ni !! ip) as [age|] eqn:E; [|done].
    pose proof (Htimer _ _ E) as Hr. unfold ARP_REQUEST_TTL in Hr.
    cbn [mbind option_bind]. unfold age_request, ARP_REQUEST_TTL.
    rewrite (u64_small (age + a)), (u64_small (age + (a + b)))
      by (unfold is_u64; lia).
    destruct (Z.leb_spec 5000 (age + a)); cbn [mbind option_bind].
    + by rewrite (proj2 (Z.leb_le 5000 (age + (a + b)))) by lia.
    + rewrite (u64_small (age + a + b)) by (unfold is_u64; lia).
      by rewrite Z.add_assoc.
Qed.

Lemma tick_zero ni : timers_in_range ni -> tick 0 ni = ni.
Proof.
  intros [Hcache Htimer]. destruct ni as [eth ipa cache timer waited out].
  cbn [ip2ether_ arp_timer_] in *. unfold tick.
  cbn [ethernet_address_ ip_address_ ip2ether_ arp_timer_ waited_dgrams_ out_frames_].
  f_equal; apply map_eq; intros ip; rewrite lookup_omap.
  - destruct (cache !! ip) as [[e age]|] eqn:E; [|done].
    pose proof (Hcache _ _ _ E) as Hr. unfold IP_MAP_TTL in Hr.
    cbn [mbind option_bind]. unfold age_mapping, IP_MAP_TTL. cbn [fst snd].
    rewrite Z.add_0_r, u64_small by (unfold is_u64; lia).
    by rewrite (proj2 (Z.leb_gt 30000 age)) by lia.
  - destruct (timer !! ip) as [age|] eqn:E; [|done].
    pose proof (Htimer _ _ E) as Hr. unfold ARP_REQUEST_TTL in Hr.
    cbn [mbind option_bind]. unfold age_request, ARP_REQUEST_TTL.
    rewrite Z.add_0_r, u64_small by (unfold is_u64; lia).
    by rewrite (proj2 (Z.leb_gt 5000 age)) by lia.
Qed.

Lemma elapsed_nonneg (l : list Z) : Forall (fun ms => 0 <= ms) l -> 0 <= elapsed l.
Proof.
  induction 1 as [|ms l Hms _ IH]; cbn [elapsed foldr]; [lia|].
  fold (elapsed l). lia.
Qed.

(** X16: however the time is cut into ticks, zero-length ticks and no tick
    at all included, the interface ends up as after one tick of the whole
    time. *)
Theorem ticks_merge (intervals : list Z) ni :
  timers_in_range ni ->
  Forall (fun ms => 0 <= ms) intervals ->
  elapsed intervals + IP_MAP_TTL <= 2 ^ 64 ->
  ticks intervals ni = tick (elapsed intervals) ni.
Proof.
  revert ni. induction intervals as [|ms l IH]; intros ni Hinv Hpos Hsum.
  - cbn [ticks foldl elapsed foldr]. symmetry. by apply tick_zero.
  - apply Forall_cons in Hpos as [Hms Hl].
    pose proof (elapsed_nonneg l Hl) as Hnn.
    change (elapsed (ms :: l)) with (ms + elapsed l) in *.
    rewrite ticks_cons, IH; [|by apply tick_brings_in_range|done|lia].
    apply tick_tick; [done|lia|lia|lia].
Qed.

(** *** A request that is not answered in time *)

Lemma ticks_no_request (l : list Z) ni ip :
  arp_timer_ ni !! ip = None -> arp_timer_ (ticks l ni) !! ip = None.
Proof.
  revert ni. induction l as [|ms l IH]; intros ni H; [done|].
  rewrite ticks_cons. apply IH. cbn [tick arp_timer_].
  by rewrite lookup_omap, H.
Qed.

Lemma ticks_addresses (l : list Z) ni ip :
  arp_request_frame (ticks l ni) ip = arp_request_frame ni ip.
Proof.
  destruct (ticks_frame l ni) as (H1 & H2 & _).
  unfold arp_request_frame. by rewrite H1, H2.
Qed.

(** X17: when the ticks since a first, unanswered [send_datagram] reach 5000 ms,
    the next [send_datagram] for the same address broadcasts a second ARP
    request; the datagram it was called with does not enter the waiting
    list, which still holds the first datagram alone. *)
Theorem request_again_after_expiry
    ni ip (d1 d2 : InternetDatagram) (before : list Z) (last : Z) (after : list Z) :
  ip2ether_ ni !! ip = None ->
  arp_timer_ ni !! ip = None ->
  waited_dgrams_ ni !! ip = None ->
  Forall (fun ms => 0 <= ms) before ->
  elapsed before < 5000 ->
  5000 <= elapsed before + last < 2 ^ 64 ->
  let again :=
    send_datagram d2 ip (ticks (before ++ last :: after) (send_datagram d1 ip ni)) in
  out_frames_ again
  = out_frames_ ni ++ [arp_request_frame ni ip; arp_request_frame ni ip] /\
  waited_dgrams_ again !! ip = Some [d1].
Proof.
  intros Hcache Htimer Hwait Hpos Hsum Hreach.
  rewrite (send_datagram_first d1 ip ni Hcache Htimer Hwait).
  set (ni1 := NetworkInterface _ _ _ _ _ _).
  set (ni2 := ticks (before ++ last :: after) ni1).
  destruct (ticks_frame (before ++ last :: after) ni1) as (_ & _ & Hw & Ho).
  fold ni2 in Hw, Ho.
  assert (Hc2 : ip2ether_ ni2 !! ip = None) by (apply ticks_unknown; exact Hcache).
  assert (Ht2 : arp_timer_ ni2 !! ip = None).
  { unfold ni2. rewrite ticks_app, ticks_cons. apply ticks_no_request.
    cbn [tick arp_timer_]. rewrite lookup_omap.
    rewrite (ticks_request_alive before ni1 ip 0);
      [|apply lookup_insert_eq|lia|done|unfold ARP_REQUEST_TTL; lia].
    cbn [mbind option_bind]. unfold age_request, ARP_REQUEST_TTL.
    pose proof (elapsed_nonneg before Hpos).
    rewrite u64_small by (unfold is_u64; lia).
    by rewrite (proj2 (Z.leb_le 5000 (0 + elapsed before + last))) by lia. }
  assert (Hq2 : waited_dgrams_ ni2 !! ip = Some [d1])
    by (rewrite Hw; apply lookup_insert_eq).
  intros again. subst again. unfold send_datagram. rewrite Hc2, Ht2.
  cbn [push_frame ethernet_address_ ip_address_ ip2ether_ arp_timer_
       waited_dgrams_ out_frames_].
  rewrite (map_insert_present _ _ _ _ Hq2), Ho. unfold ni2 at 1.
  rewrite ticks_addresses.
  split; [|exact Hq2].
  cbn [out_frames_ ni1]. unfold ni1 at 1. cbn [out_frames_].
  rewrite <- app_assoc. f_equal.
Qed.

(** *** Two interfaces on one link *)

(** X18: a datagram for an interface whose address is not known yet gets there:
    the ARP request of the sender is answered by the receiver, the answer
    releases the datagram, and the receiver's [recv_frame] returns it.
    Afterwards the sender has the receiver in its cache at age 0 and
    nothing waiting, and the receiver has an entry for the sender. *)
Theorem arp_exchange_delivers (A B : t) (d : InternetDatagram) :
  (forall m, parse_arp (serialize_arp m) = Some m) ->
  (forall dgram, parse_dgram (serialize_dgram dgram) = Some dgram) ->
  TYPE_ARP ≠ TYPE_IPv4 ->
  OPCODE_REPLY ≠ OPCODE_REQUEST ->
  ip2ether_ A !! ip_address_ B = None ->
  arp_timer_ A !! ip_address_ B = None ->
  waited_dgrams_ A !! ip_address_ B = None ->
  out_frames_ A = [] ->
  out_frames_ B = [] ->
  exists request reply carrier A1 B1 B2 A2 A3,
    maybe_send (send_datagram d (ip_address_ B) A) = (Some request, A1) /\
    recv_frame request B = (None, B1) /\
    maybe_send B1 = (Some reply, B2) /\
    recv_frame reply A1 = (None, A2) /\
    maybe_send A2 = (Some carrier, A3) /\
    recv_frame carrier B2 = (Some d, B2) /\
    ip2ether_ A3 !! ip_address_ B = Some (ethernet_address_ B, 0) /\
    waited_dgrams_ A3 !! ip_address_ B = None /\
    out_frames_ A3 = [] /\
    is_Some (ip2ether_ B2 !! ip_address_ A).
Proof.
  intros Harp Hdgram Hty Hop Hcache Htimer Hwait HoutA HoutB.
  set (ip := ip_address_ B) in *.
  (* the request leaves A *)
  rewrite (send_datagram_first d ip A Hcache Htimer Hwait), HoutA.
  cbn [app]. unfold maybe_send at 1. cbn [out_frames_].
  set (A1 := NetworkInterface _ _ _ _ _ []).
  set (request := arp_request_frame A ip).
  set (msg := Build_ARPMessage OPCODE_REQUEST (ethernet_address_ A) (ip_address_ A)
                (target_ethernet_address ARPMessage_default) ip).
  (* B answers *)
  assert (HB : recv_frame request B
               = (None, push_frame (arp_reply_frame B msg) (learn msg B))).
  { rewrite (recv_frame_arp request B msg); [|done|by right|done|apply Harp].
    change (opcode msg) with OPCODE_REQUEST.
    change (target_ip_address msg) with (ip_address_ B).
    by rewrite !Z.eqb_refl. }
  set (reply := arp_reply_frame B msg).
  set (rmsg := Build_ARPMessage OPCODE_REPLY (ethernet_address_ B) (ip_address_ B)
                 (sender_ethernet_address msg) (sender_ip_address msg)).
  assert (HB2 : maybe_send (push_frame reply (learn msg B)) = (Some reply, learn msg B)).
  { unfold maybe_send, push_frame, learn. cbn [out_frames_]. rewrite HoutB.
    cbn [app ethernet_address_ ip_address_ ip2ether_ arp_timer_ waited_dgrams_]. done. }
  (* the answer releases the datagram at A *)
  assert (Hl : ip2ether_ (learn rmsg A1) !! ip = Some (ethernet_address_ B, 0)).
  { pose proof (learn_lookup rmsg A1) as H.
    change (sender_ip_address rmsg) with ip in H.
    change (sender_ethernet_address rmsg) with (ethernet_address_ B) in H.
    rewrite H. change (ip2ether_ A1) with (ip2ether_ A). by rewrite Hcache. }
  assert (HA : recv_frame reply A1
               = (None,
                  NetworkInterface (ethernet_address_ A) (ip_address_ A)
                    (ip2ether_ (learn rmsg A1)) (arp_timer_ A1)
                    (delete ip (waited_dgrams_ A1))
                    [ipv4_frame A (ethernet_address_ B) d])).
  { rewrite (recv_frame_arp reply A1 rmsg); [|done|by left|done|apply Harp].
    change (opcode rmsg) with OPCODE_REPLY.
    rewrite (proj2 (Z.eqb_neq _ _) Hop), Z.eqb_refl, learn_twice.
    change (sender_ip_address rmsg) with ip.
    rewrite (flush_waited_resolved _ _ _ Hl).
    change (waited_dgrams_ (learn rmsg A1)) with (<[ip:=[d]]> (waited_dgrams_ A)).
    rewrite lookup_insert_eq. reflexivity. }
  set (A2 := NetworkInterface _ _ _ _ _ [ipv4_frame A (ethernet_address_ B) d]) in HA.
  exists request, reply, (ipv4_frame A (ethernet_address_ B) d), A1,
    (push_frame reply (learn msg B)), (learn msg B), A2,
    (NetworkInterface (ethernet_address_ A) (ip_address_ A)
       (ip2ether_ (learn rmsg A1)) (arp_timer_ A1) (delete ip (waited_dgrams_ A1)) []).
  split_and!; try done.
  - unfold recv_frame, ipv4_frame. cbn [header payload dst type learn ethernet_address_].
    rewrite (bool_decide_eq_false_2 (ethernet_address_ B ≠ ethernet_address_ B))
      by (intros Hne; by apply Hne).
    cbn [andb]. by rewrite Z.eqb_refl, Hdgram.
  - cbn [waited_dgrams_]. apply lookup_delete_eq.
  - cbn [learn ip2ether_]. rewrite lookup_map_insert. by eexists.
Qed.

End More.

End NetworkInterfaceMore.

(** ** The further statements on the concrete collaborators *)

Module NetworkInterfaceMoreRuns.
Import NetworkInterface NetworkInterfaceFacts NetworkInterfaceMore Fixture.

Lemma timers_in_range_host_knowing_peer : timers_in_range host_knowing_peer.
Proof.
  split; intros *; cbn [host_knowing_peer ip2ether_ arp_timer_].
  - intros [_ [= <- <-]]%lookup_singleton_Some. unfold IP_MAP_TTL. lia.
  - by rewrite lookup_empty.
Qed.

Lemma recv_frame_delivers_only_ipv4_witness :
  addressed_here hello_frame host /\
  type (header hello_frame) = TYPE_IPv4 /\
  parse_dgram (payload hello_frame) = Some "hello" /\
  (recv_frame hello_frame host).2 = host.
Proof.
  apply (recv_frame_delivers_only_ipv4 hello_frame host "hello").
  reflexivity.
Defined.

Lemma operations_keep_timers_in_range_witness :
  timers_in_range (tick 29900 host_knowing_peer).
Proof.
  apply (operations_keep_timers_in_range host_knowing_peer).
  apply timers_in_range_host_knowing_peer.
Defined.

Lemma ticks_merge_witness :
  ticks [10; 0; 20000; 9889] host_knowing_peer = tick 29899 host_knowing_peer.
Proof.
  apply (ticks_merge [10; 0; 20000; 9889] host_knowing_peer).
  - apply timers_in_range_host_knowing_peer.
  - repeat constructor; lia.
  - vm_compute. discriminate.
Defined.

Lemma request_again_after_expiry_witness :
  let again :=
    send_datagram "second" peer_ip
      (ticks ([2000; 2999] ++ 1 :: [40])
         (send_datagram "first" peer_ip host)) in
  out_frames_ again
  = out_frames_ host ++ [arp_request_frame host peer_ip; arp_request_frame host peer_ip] /\
  waited_dgrams_ again !! peer_ip = Some ["first"].
Proof.
  apply (request_again_after_expiry host peer_ip "first" "second" [2000; 2999] 1 [40]).
  - reflexivity.
  - reflexivity.
  - reflexivity.
  - repeat constructor; lia.
  - vm_compute. reflexivity.
  - vm_compute. split; [discriminate|reflexivity].
Defined.

Lemma arp_exchange_delivers_witness :
  exists request reply carrier A1 B1 B2 A2 A3,
    maybe_send (send_datagram "hello" peer_ip host) = (Some request, A1) /\
    recv_frame request peer = (None, B1) /\
    maybe_send B1 = (Some reply, B2) /\
    recv_frame reply A1 = (None, A2) /\
    maybe_send A2 = (Some carrier, A3) /\
    recv_frame carrier B2 = (Some "hello", B2) /\
    ip2ether_ A3 !! peer_ip = Some (peer_mac, 0) /\
    waited_dgrams_ A3 !! peer_ip = None /\
    out_frames_ A3 = [] /\
    is_Some (ip2ether_ B2 !! host_ip).
Proof.
  apply (arp_exchange_delivers host peer "hello").
  - intros m. reflexivity.
  - intros dgram. reflexivity.
  - vm_compute. discriminate.
  - vm_compute. discriminate.
  - reflexivity.
  - reflexivity.
  - reflexivity.
  - reflexivity.
  - reflexivity.
Defined.

End NetworkInterfaceMoreRuns.
